(** * Guarded identity mutation and login flow requests (ory/kratos)

    A shallow embedding of [identity/manager.go] and
    [selfservice/flow/login/request.go], followed by the properties of the
    identity manager and of the login request that the specification states.

    Conventions of the embedding:
    - a Go pointer that may be nil is an [option] ([None] is nil);
    - a Go slice or map that may be nil is an [option] of a list or of a
      finite map ([None] is nil, [Some []] / [Some ∅] is empty but allocated);
    - a Go function returning [error] returns [option error] ([None] is nil);
    - a method with a pointer receiver returns the new value of the receiver;
    - calls that read the clock, the entropy source or the store thread an
      explicit state through a small state monad. *)

From Stdlib Require Import ZArith Lia.
From stdpp Require Import gmap strings list fin_maps.

Local Open Scope Z_scope.

(** ** A state monad for the effects of the code *)

Definition State (S A : Type) : Type := S → A * S.

Definition st_ret {S A} (a : A) : State S A := λ s, (a, s).

Definition st_bind {S A B} (c : State S A) (k : A → State S B) : State S B :=
  λ s, let '(a, s') := c s in k a s'.

Notation "'do' x <- c ; k" := (st_bind c (λ x, k))
  (at level 10, x name, c at level 100, k at level 200).
Notation "'do' ' p <- c ; k" := (st_bind c (λ x, match x with p => k end))
  (at level 10, p pattern, c at level 100, k at level 200).

(** ** Package time (the part of the Go library the code calls) *)

Module time.

(** An instant, in nanoseconds on the wall clock. The range of [time.Time]
    (seconds in an [int64]) is far beyond any reading and is left open. *)
Definition Time : Type := Z.

(** [time.Duration] is an [int64] count of nanoseconds. *)
Definition Duration : Type := Z.
Definition minDuration : Duration := - 2 ^ 63.
Definition maxDuration : Duration := 2 ^ 63 - 1.

Definition Before (t u : Time) : bool := t <? u.
Definition After (t u : Time) : bool := u <? t.
Definition Add (t : Time) (d : Duration) : Time := t + d.
Definition UTC (t : Time) : Time := t.

(** [t.Sub(u)]: the difference, saturated to the range of [Duration]. *)
Definition Sub (t u : Time) : Duration :=
  if t - u <? minDuration then minDuration
  else if maxDuration <? t - u then maxDuration
  else t - u.

(** The wall clock: every call of [time.Now] takes the next reading. *)
Record Clock : Type := mkClock { readings : nat → Time; taken : nat }.

Definition Now : State Clock Time :=
  λ c, (readings c (taken c), mkClock (readings c) (S (taken c))).

(** [time.Since(t)] is [time.Now().Sub(t)]. *)
Definition Since (t : Time) : State Clock Duration :=
  do now <- Now; st_ret (Sub now t).

(** A clock that stands still at [t]. *)
Definition frozen (t : Time) : Clock := mkClock (λ _, t) 0.

End time.

(** ** Package herodot (the error values the code builds on) *)

Module herodot.

(** [herodot.DefaultError], reduced to its HTTP status code and reason. *)
Record DefaultError : Type := mkDefaultError {
  CodeField : Z;
  ReasonField : string
}.

Definition ErrBadRequest : DefaultError := mkDefaultError 400 "".
Definition ErrForbidden : DefaultError := mkDefaultError 403 "".

(** [e.WithReason(reason)] and [e.WithReasonf(...)], the reason already
    formatted: a copy of [e] with the reason replaced. *)
Definition WithReason (e : DefaultError) (reason : string) : DefaultError :=
  mkDefaultError (CodeField e) reason.

End herodot.

(** ** Packages url and http (what [NewLoginRequest] reads of a request) *)

Module url.

(** [url.URL], field by field; [User] is a pointer. *)
Record URL : Type := mkURL {
  Scheme : string;
  Opaque : string;
  User : option string;
  Host : string;
  Path : string;
  RawPath : string;
  ForceQuery : bool;
  RawQuery : string;
  Fragment : string
}.

Definition set_Scheme (v : string) (u : URL) : URL :=
  mkURL v (Opaque u) (User u) (Host u) (Path u) (RawPath u) (ForceQuery u)
    (RawQuery u) (Fragment u).

Definition set_Host (v : string) (u : URL) : URL :=
  mkURL (Scheme u) (Opaque u) (User u) v (Path u) (RawPath u) (ForceQuery u)
    (RawQuery u) (Fragment u).

End url.

Module http.

(** [http.Request], reduced to the fields [NewLoginRequest] reads: the
    pointer [URL], the [Host], and whether the pointer [TLS] is set. *)
Record Request : Type := mkRequest {
  URL : option url.URL;
  Host : string;
  TLS : option unit
}.

End http.

(** ** Package login: the login flow request *)

Module login.

(** [identity.CredentialsType] is a string type. *)
Definition CredentialsType : Type := string.

(** [uuid.UUID] is 16 bytes; kept as the number they spell. *)
Definition UUID : Type := N.

(** Modelled from the spec: the struct [RequestMethod] is declared in a
    file that is not at hand. It carries its own credential type
    ([Method], the only field [request.go] reads) and the per-method state
    ([Config]). *)
Record RequestMethod : Type := mkRequestMethod {
  Method : CredentialsType;
  Config : string
}.

(** [RequestMethods] is [map[identity.CredentialsType]*RequestMethod]. *)
Abbreviation RequestMethods := (gmap CredentialsType (option RequestMethod)).

(** [RequestMethodsRaw] is [[]RequestMethod]. *)
Abbreviation RequestMethodsRaw := (list RequestMethod).

Record Request : Type := mkRequest {
  ID : UUID;
  ExpiresAt : time.Time;
  IssuedAt : time.Time;
  RequestURL : string;
  Active : CredentialsType;
  Methods : option RequestMethods;
  MethodsRaw : option RequestMethodsRaw;
  CreatedAt : time.Time;
  UpdatedAt : time.Time;
  CSRFToken : string;
  Forced : bool
}.

Definition set_Methods (v : option RequestMethods) (r : Request) : Request :=
  mkRequest (ID r) (ExpiresAt r) (IssuedAt r) (RequestURL r) (Active r)
    v (MethodsRaw r) (CreatedAt r) (UpdatedAt r) (CSRFToken r) (Forced r).

Definition set_MethodsRaw (v : option RequestMethodsRaw) (r : Request) : Request :=
  mkRequest (ID r) (ExpiresAt r) (IssuedAt r) (RequestURL r) (Active r)
    (Methods r) v (CreatedAt r) (UpdatedAt r) (CSRFToken r) (Forced r).

(** The errors [Valid] builds. [newRequestExpiredError] is declared in a
    file that is not at hand; the error it returns carries the duration it
    is given. *)
Inductive error : Type :=
| RequestExpired (ago : time.Duration)
| Herodot (e : herodot.DefaultError).

Definition newRequestExpiredError (ago : time.Duration) : error :=
  RequestExpired ago.

(** The entries of a map, nil or not ([len] and [range] accept both). *)
Definition entries (m : option RequestMethods)
  : list (CredentialsType * option RequestMethod) :=
  match m with
  | None => []
  | Some m => map_to_list m
  end.

(** Go leaves the order of [range] over a map open: [visit] is an order in
    which the loop may see the entries of [m]. *)
Definition RangeOrder (m : option RequestMethods)
    (visit : list (CredentialsType * option RequestMethod)) : Prop :=
  visit ≡ₚ entries m.

(** The loop of [BeforeSave]: [raw = append(raw, *m)] for each entry
    visited; dereferencing a nil [m] panics ([None]). *)
Fixpoint appendEach (raw : RequestMethodsRaw)
    (visit : list (CredentialsType * option RequestMethod))
  : option RequestMethodsRaw :=
  match visit with
  | [] => Some raw
  | (_, None) :: _ => None
  | (_, Some m) :: rest => appendEach (raw ++ [m]) rest
  end.

(** [BeforeSave], ranging over [r.Methods] in the order [visit]. The
    result is [None] when the hook panics, else the request and the error
    returned (always nil). *)
Definition BeforeSave
    (visit : list (CredentialsType * option RequestMethod)) (r : Request)
  : option (Request * option error) :=
  match appendEach [] visit with
  | None => None
  | Some raw => Some (set_Methods None (set_MethodsRaw (Some raw) r), None)
  end.

(** The loop of [AfterFind]: [r.Methods[m.Method] = &m] for the elements
    of the slice, by increasing index. *)
Definition rebuild (raw : RequestMethodsRaw) : RequestMethods :=
  foldl (λ methods m, <[Method m := Some m]> methods) ∅ raw.

Definition AfterFind (r : Request) : Request * option error :=
  let methods := rebuild (default [] (MethodsRaw r)) in
  (set_MethodsRaw None (set_Methods (Some methods) r), None).

Definition AfterCreate (r : Request) : Request * option error := AfterFind r.

Definition AfterUpdate (r : Request) : Request * option error := AfterFind r.

Definition TableName (r : Request) : string := "selfservice_login_requests".

Definition Valid (r : Request) : State time.Clock (option error) :=
  do now <- time.Now;
  if time.Before (ExpiresAt r) now then
    do ago <- time.Since (ExpiresAt r);
    st_ret (Some (newRequestExpiredError ago))
  else
    do now <- time.Now;
    if time.After (IssuedAt r) now then
      st_ret (Some (Herodot (herodot.WithReason herodot.ErrBadRequest
                               "The login request was issued in the future.")))
    else st_ret None.

Definition GetID (r : Request) : UUID := ID r.

Definition IsForced (r : Request) : bool := Forced r.

(** A representation is populated when it is not nil. *)
Definition populated {A} (v : option A) : bool :=
  match v with Some _ => true | None => false end.

(** A storage round trip: [BeforeSave] with the entries visited in the order
    [visit], then [AfterFind] on what it left. *)
Definition roundTrip
    (visit : list (CredentialsType * option RequestMethod)) (r : Request)
  : option Request :=
  match BeforeSave visit r with
  | None => None
  | Some (r', _) => Some (fst (AfterFind r'))
  end.

(** The element of the storage form that stands for [m], with the key
    [AfterFind] files it under. *)
Definition tag (m : RequestMethod) : CredentialsType * option RequestMethod :=
  (Method m, Some m).

(** Every entry of [methods] is allocated and sits under the credential type
    that its own [Method] field names. *)
Definition keyedByMethod (methods : RequestMethods) : Prop :=
  ∀ k p, methods !! k = Some p → ∃ m, p = Some m ∧ Method m = k.

(** No entry visited is a nil pointer. *)
Definition allocated (visit : list (CredentialsType * option RequestMethod)) : Prop :=
  ∀ k, (k, None) ∉ visit.

(** The zero value of [time.Time]. *)
Definition zeroTime : time.Time := 0.

Section NewRequest.

(** What [NewLoginRequest] calls without the code being at hand:
    [x.NewUUID], over the state of its entropy source, and the method
    [String] of [url.URL]. They stay parameters. *)
Variable UUIDSource : Type.
Variable NewUUID : State UUIDSource UUID.
Variable URLString : url.URL → string.

(** What a call of [NewLoginRequest] reads and advances. *)
Record Env : Type := mkEnv { clock : time.Clock; uuids : UUIDSource }.

Definition onClock {A} (f : State time.Clock A) : State Env A :=
  λ e, let '(a, k) := f (clock e) in (a, mkEnv k (uuids e)).

Definition onUUIDs {A} (f : State UUIDSource A) : State Env A :=
  λ e, let '(a, u) := f (uuids e) in (a, mkEnv (clock e) u).

(** [NewLoginRequest]. [urlx.Copy] dereferences [r.URL]: the call panics
    ([None]) when that pointer is nil. The fields of the literal are
    evaluated in the order they are written: the id, the clock for
    [ExpiresAt], the clock for [IssuedAt], the text of the URL. *)
Definition NewLoginRequest (exp : time.Duration) (csrf : string)
    (r : http.Request) : State Env (option Request) :=
  match http.URL r with
  | None => st_ret None
  | Some u =>
      let source := u in
      let source := url.set_Host (http.Host r) source in
      let source :=
        if (String.length (url.Scheme source) =? 0)%nat then
          let source := url.set_Scheme "http" source in
          match http.TLS r with
          | Some _ => url.set_Scheme "https" source
          | None => source
          end
        else source in
      do id <- onUUIDs NewUUID;
      do expires <- onClock time.Now;
      do issued <- onClock time.Now;
      st_ret (Some (mkRequest id (time.Add (time.UTC expires) exp)
                      (time.UTC issued) (URLString source) "" (Some ∅) None
                      zeroTime zeroTime csrf false))
  end.

End NewRequest.

Arguments mkEnv {_}.
Arguments clock {_}.
Arguments uuids {_}.

(** A clock whose readings never go back. *)
Definition steady (k : time.Clock) : Prop :=
  ∀ i j : nat, (i ≤ j)%nat → time.readings k i ≤ time.readings k j.

(** How a run of a hook ends: it returns, or it panics; either way the
    receiver is left as the statements executed so far have made it. *)
Inductive Outcome : Type :=
| Returned (r : Request) (err : option error)
| Panicked (r : Request).

(** The loop of [BeforeSave] on the receiver itself: each iteration assigns
    [r.MethodsRaw = append(r.MethodsRaw, *m)]; at a nil [m] the run stops
    with the receiver as it stands. *)
Fixpoint appendEachTo (r : Request)
    (visit : list (CredentialsType * option RequestMethod)) : Request + Request :=
  match visit with
  | [] => inl r
  | (_, None) :: _ => inr r
  | (_, Some m) :: rest =>
      appendEachTo (set_MethodsRaw (Some (default [] (MethodsRaw r) ++ [m])) r) rest
  end.

(** [BeforeSave] statement by statement: [r.MethodsRaw = make(...)], the
    loop, then [r.Methods = nil] and [return nil]. It returns what
    [BeforeSave] above returns, and it keeps the receiver of a run that
    panics. *)
Definition BeforeSaveSteps
    (visit : list (CredentialsType * option RequestMethod)) (r : Request)
  : Outcome :=
  let r := set_MethodsRaw (Some []) r in
  match appendEachTo r visit with
  | inr r => Panicked r
  | inl r => Returned (set_Methods None r) None
  end.

End login.

(** ** Package context *)

Module context.

(** Why a context is done: [context.Canceled] or
    [context.DeadlineExceeded]. *)
Inductive doneError : Type := Canceled | DeadlineExceeded.

(** A context, reduced to what [ctx.Err()] returns: nil while the context
    is live, the cause once it is done. *)
Record Context : Type := mkContext { Err : option doneError }.

Definition Background : Context := mkContext None.

Definition isDone (ctx : Context) : bool :=
  match Err ctx with Some _ => true | None => false end.

End context.

(** ** Package identity: the identity manager *)

Module identity.

Definition CredentialsType : Type := string.

Definition UUID : Type := N.

(** Modelled from the spec: the struct [VerifiableAddress] is declared in a
    file that is not at hand; its fields are those the data model lists. *)
Record VerifiableAddress : Type := mkVerifiableAddress {
  Value : string;
  Via : string;
  Verified : bool;
  Code : string;
  ExpiresAt : time.Time
}.

#[global] Instance VerifiableAddress_eq_dec : EqDecision VerifiableAddress.
Proof. solve_decision. Defined.

Definition set_Code (v : string) (a : VerifiableAddress) : VerifiableAddress :=
  mkVerifiableAddress (Value a) (Via a) (Verified a) v (ExpiresAt a).

Definition set_ExpiresAt (v : time.Time) (a : VerifiableAddress) : VerifiableAddress :=
  mkVerifiableAddress (Value a) (Via a) (Verified a) (Code a) v.

(** What [manager.go] uses of its package without declaring it: the type of
    the traits document, the type of the credentials mapping with the
    equality [CredentialsEqual] the guard calls, and the verification code
    generator [NewVerifyCode] with the state of its entropy source. They
    stay parameters of the development. *)
Class Declarations : Type := {
  TraitsDoc : Type;
  CredentialsMap : Type;
  CredentialsEqual : CredentialsMap → CredentialsMap → bool;
  Entropy : Type;
  NewVerifyCode : State Entropy (string + string)
}.

(** The errors of the collaborators. A validator error either has a
    [*jsonschema.ValidationError] as its cause or it has not. *)
Inductive ValidatorError : Type :=
| SchemaViolation (detail : string)
| ValidatorFailure (message : string).

(** [errorsx.Cause(err).( *jsonschema.ValidationError)] succeeds. *)
Definition causeIsValidationError (err : ValidatorError) : bool :=
  match err with SchemaViolation _ => true | ValidatorFailure _ => false end.

(** [err.Error()], what the verb [%s] prints. *)
Definition ValidatorError_Error (err : ValidatorError) : string :=
  match err with SchemaViolation s => s | ValidatorFailure s => s end.

Inductive PoolError : Type :=
| ErrNotFound
| ErrContext (cause : context.doneError)
| ErrPool (message : string).

(** The errors the manager returns: its own herodot values, or an error of
    a collaborator handed on as it is. *)
Inductive error : Type :=
| Herodot (e : herodot.DefaultError)
| OfValidator (e : ValidatorError)
| OfPool (e : PoolError)
| OfNewVerifyCode (message : string).

Definition ErrProtectedFieldModified : herodot.DefaultError :=
  herodot.WithReason herodot.ErrForbidden
    "A field was modified that updates one or more credentials-related settings. This action was blocked because an unprivileged method was used to execute the update. This is either a configuration issue or a bug and should be reported to the system administrator.".

Record managerOptions : Type := mkManagerOptions {
  ExposeValidationErrors : bool;
  AllowWriteProtectedTraits : bool
}.

(** [ManagerOption] is [func( *managerOptions)]. *)
Definition ManagerOption : Type := managerOptions → managerOptions.

Definition ManagerExposeValidationErrors : ManagerOption :=
  λ options, mkManagerOptions true (AllowWriteProtectedTraits options).

Definition ManagerAllowWriteProtectedTraits : ManagerOption :=
  λ options, mkManagerOptions (ExposeValidationErrors options) true.

Definition newManagerOptions (opts : list ManagerOption) : managerOptions :=
  foldl (λ o f, f o) (mkManagerOptions false false) opts.

(** The options the package exports. *)
Definition exported (f : ManagerOption) : Prop :=
  f = ManagerExposeValidationErrors ∨ f = ManagerAllowWriteProtectedTraits.

(** An error of the cancellation class: the cause of a context that is done,
    as the store hands it back. *)
Definition isCancellation (e : error) : bool :=
  match e with OfPool (ErrContext _) => true | _ => false end.

(** What the specification says [validate] makes of a verdict of the
    validator; [validate_run] below shows that the code does so. *)
Definition reported (o : managerOptions) (verdict : option ValidatorError)
  : option error :=
  match verdict with
  | Some err =>
      if causeIsValidationError err && negb (ExposeValidationErrors o)
      then Some (Herodot (herodot.WithReason herodot.ErrBadRequest
                            (ValidatorError_Error err)))
      else Some (OfValidator err)
  | None => None
  end.

(** An error of the bad-request class. *)
Definition isBadRequest (e : error) : bool :=
  match e with Herodot h => herodot.CodeField h =? 400 | _ => false end.

Section Manager.
Context `{Declarations}.

(** Modelled from the spec: the struct [Identity] is declared in a file
    that is not at hand; its fields are those the data model lists
    ([VerifiableAddresses] is the field [Addresses] of the code). *)
Record Identity : Type := mkIdentity {
  ID : UUID;
  Traits : TraitsDoc;
  Credentials : CredentialsMap;
  Addresses : option (list VerifiableAddress)
}.

Definition set_Traits (v : TraitsDoc) (i : Identity) : Identity :=
  mkIdentity (ID i) v (Credentials i) (Addresses i).

(** [deepcopy.Copy]: a structurally independent copy, the same value. *)
Definition deepcopy_Copy (i : Identity) : Identity := i.

(** [reflect.DeepEqual] on two address slices: nil and empty differ. *)
Definition DeepEqual (a b : option (list VerifiableAddress)) : bool :=
  bool_decide (a = b).

(** [len] of a slice, nil or not. *)
Definition len (a : option (list VerifiableAddress)) : nat :=
  length (default [] a).

(** The store contract: [PrivilegedPool], over the state of the store.
    The confidential read returns an identity or an error. *)
Record PrivilegedPool : Type := mkPool {
  PoolState : Type;
  GetIdentityConfidential :
    context.Context → UUID → State PoolState (Identity + PoolError);
  CreateIdentity :
    context.Context → Identity → State PoolState (option PoolError);
  UpdateIdentity :
    context.Context → Identity → State PoolState (option PoolError);
  UpdateVerifiableAddress :
    context.Context → VerifiableAddress → State PoolState (option PoolError)
}.

(** The validator contract. [Validate] receives a pointer: it returns the
    identity as it leaves it, and its verdict. *)
Record Validator : Type := mkValidator {
  Validate : Identity → Identity * option ValidatorError
}.

Record managerDependencies : Type := mkDependencies {
  IdentityPool : PrivilegedPool;
  IdentityValidator : Validator
}.

(** [configuration.Provider], reduced to the setting the manager reads. *)
Record Provider : Type := mkProvider {
  SelfServiceVerificationLinkLifespan : time.Duration
}.

Record Manager : Type := mkManager {
  r : managerDependencies;
  c : Provider
}.

Definition NewManager (r : managerDependencies) (c : Provider) : Manager :=
  mkManager r c.

(** The calls the manager makes to its collaborators, kept as a ghost
    trace so that "no store update is invoked" can be stated. *)
Inductive Call : Type :=
| CallValidate (i : Identity)
| CallGetIdentityConfidential (ctx : context.Context) (id : UUID)
| CallCreateIdentity (ctx : context.Context) (i : Identity)
| CallUpdateIdentity (ctx : context.Context) (i : Identity)
| CallUpdateVerifiableAddress (ctx : context.Context) (a : VerifiableAddress)
| CallNewVerifyCode.

Definition isStoreWrite (e : Call) : bool :=
  match e with
  | CallCreateIdentity _ _ | CallUpdateIdentity _ _
  | CallUpdateVerifiableAddress _ _ => true
  | _ => false
  end.

(** Everything a call of the manager [m] can read or change. *)
Record World (m : Manager) : Type := mkWorld {
  pool : PoolState (IdentityPool (r m));
  clock : time.Clock;
  entropy : Entropy;
  calls : list Call
}.
Arguments mkWorld {m}.
Arguments pool {m}.
Arguments clock {m}.
Arguments entropy {m}.
Arguments calls {m}.

Section Methods.
Variable m : Manager.

Definition record (e : Call) : State (World m) unit :=
  λ w, (tt, mkWorld (pool w) (clock w) (entropy w) (calls w ++ [e])).

Definition onPool {A} (f : State (PoolState (IdentityPool (r m))) A)
  : State (World m) A :=
  λ w, let '(a, p) := f (pool w) in
       (a, mkWorld p (clock w) (entropy w) (calls w)).

Definition onClock {A} (f : State time.Clock A) : State (World m) A :=
  λ w, let '(a, k) := f (clock w) in
       (a, mkWorld (pool w) k (entropy w) (calls w)).

Definition onEntropy {A} (f : State Entropy A) : State (World m) A :=
  λ w, let '(a, e) := f (entropy w) in
       (a, mkWorld (pool w) (clock w) e (calls w)).

Definition liftError (e : option PoolError) : option error := OfPool <$> e.

Definition validate (i : Identity) (o : managerOptions)
  : State (World m) (Identity * option error) :=
  do _ <- record (CallValidate i);
  let '(i, err) := Validate (IdentityValidator (r m)) i in
  match err with
  | Some err =>
      if causeIsValidationError err && negb (ExposeValidationErrors o) then
        st_ret (i, Some (Herodot (herodot.WithReason herodot.ErrBadRequest
                                    (ValidatorError_Error err))))
      else st_ret (i, Some (OfValidator err))
  | None => st_ret (i, None)
  end.

Definition Create (ctx : context.Context) (i : Identity)
    (opts : list ManagerOption) : State (World m) (Identity * option error) :=
  let o := newManagerOptions opts in
  do '(i, err) <- validate i o;
  match err with
  | Some err => st_ret (i, Some err)
  | None =>
      do _ <- record (CallCreateIdentity ctx i);
      do err <- onPool (CreateIdentity (IdentityPool (r m)) ctx i);
      st_ret (i, liftError err)
  end.

Definition Update (ctx : context.Context) (i : Identity)
    (opts : list ManagerOption) : State (World m) (Identity * option error) :=
  let o := newManagerOptions opts in
  do '(i, err) <- validate i o;
  match err with
  | Some err => st_ret (i, Some err)
  | None =>
      do _ <- record (CallUpdateIdentity ctx i);
      do err <- onPool (UpdateIdentity (IdentityPool (r m)) ctx i);
      st_ret (i, liftError err)
  end.

(** [UpdateTraits] returns, with the error, the working identity as the
    call leaves it ([None] when the confidential read failed). *)
Definition UpdateTraits (ctx : context.Context) (id : UUID)
    (traits : TraitsDoc) (opts : list ManagerOption)
  : State (World m) (option Identity * option error) :=
  let o := newManagerOptions opts in
  do _ <- record (CallGetIdentityConfidential ctx id);
  do got <- onPool (GetIdentityConfidential (IdentityPool (r m)) ctx id);
  match got with
  | inr err => st_ret (None, Some (OfPool err))
  | inl identity =>
      let original := deepcopy_Copy identity in
      let identity := set_Traits traits identity in
      do '(identity, err) <- validate identity o;
      match err with
      | Some err => st_ret (Some identity, Some err)
      | None =>
          let update :=
            do _ <- record (CallUpdateIdentity ctx identity);
            do err <- onPool (UpdateIdentity (IdentityPool (r m)) ctx identity);
            st_ret (Some identity, liftError err) in
          if negb (AllowWriteProtectedTraits o) then
            if negb (CredentialsEqual (Credentials identity)
                                      (Credentials original)) then
              st_ret (Some original, Some (Herodot ErrProtectedFieldModified))
            else if negb (DeepEqual (Addresses original) (Addresses identity))
                    && negb (len (Addresses original)
                             + len (Addresses identity) =? 0)%nat then
              st_ret (Some original, Some (Herodot ErrProtectedFieldModified))
            else update
          else update
      end
  end.

Definition RefreshVerifyAddress (ctx : context.Context)
    (address : VerifiableAddress)
  : State (World m) (VerifiableAddress * option error) :=
  do _ <- record CallNewVerifyCode;
  do generated <- onEntropy NewVerifyCode;
  match generated with
  | inr err => st_ret (address, Some (OfNewVerifyCode err))
  | inl code =>
      let address := set_Code code address in
      do now <- onClock time.Now;
      let address :=
        set_ExpiresAt
          (time.Add (time.UTC now) (SelfServiceVerificationLinkLifespan (c m)))
          address in
      do _ <- record (CallUpdateVerifiableAddress ctx address);
      do err <- onPool (UpdateVerifiableAddress (IdentityPool (r m)) ctx address);
      st_ret (address, liftError err)
  end.

End Methods.

(** The guard's equality on the protected fields: the credentials are
    [CredentialsEqual], and the addresses are deeply equal or both of
    length 0. *)
Definition addressesUnchanged (original current : option (list VerifiableAddress))
  : bool :=
  DeepEqual original current || (len original + len current =? 0)%nat.

Definition protectedUnchanged (original current : Identity) : bool :=
  CredentialsEqual (Credentials current) (Credentials original)
  && addressesUnchanged (Addresses original) (Addresses current).

(** A store that answers a context that is done with the cause, and leaves
    its state as it is. *)
Definition honoursContext (P : PrivilegedPool) : Prop :=
  ∀ ctx cause, context.Err ctx = Some cause →
    (∀ id s, GetIdentityConfidential P ctx id s = (inr (ErrContext cause), s))
    ∧ (∀ i s, CreateIdentity P ctx i s = (Some (ErrContext cause), s))
    ∧ (∀ i s, UpdateIdentity P ctx i s = (Some (ErrContext cause), s))
    ∧ (∀ a s, UpdateVerifiableAddress P ctx a s = (Some (ErrContext cause), s)).

End Manager.

Arguments mkWorld {_ m}.
Arguments pool {_ m}.
Arguments clock {_ m}.
Arguments entropy {_ m}.
Arguments calls {_ m}.

End identity.


(** ** Sample data: login requests *)

Module login_samples.
Import login.

Definition passwordMethod : RequestMethod := mkRequestMethod "password" "first attempt".
Definition oidcMethod : RequestMethod := mkRequestMethod "oidc" "providers".
Definition passwordRetry : RequestMethod :=
  mkRequestMethod "password" "second attempt".

Definition blank (methods : option RequestMethods)
    (raw : option RequestMethodsRaw) : Request :=
  mkRequest 7%N 3600 0 "http://kratos/login" "" methods raw 0 0 "csrf" false.

(** A request whose two methods sit under their own credential type. *)
Definition keyed : Request :=
  blank (Some (<["password" := Some passwordMethod]>
                 (<["oidc" := Some oidcMethod]> ∅))) None.

Definition keyedVisit : list (CredentialsType * option RequestMethod) :=
  [("password", Some passwordMethod); ("oidc", Some oidcMethod)].

(** A request as the store hands it over: the storage form holds two
    elements for "password", the retry after the first attempt. *)
Definition retried : Request :=
  blank None (Some [passwordMethod; oidcMethod; passwordRetry]).

(** A request whose only entry sits under "password" while its own
    [Method] field says "oidc". *)
Definition misfiled : Request :=
  blank (Some (<["password" := Some oidcMethod]> ∅)) None.

Definition misfiledVisit : list (CredentialsType * option RequestMethod) :=
  [("password", Some oidcMethod)].

(** A request whose time window is inverted: it expired at 10 and was
    issued at 100. *)
Definition inverted : Request :=
  mkRequest 7%N 10 100 "http://kratos/login" "" (Some ∅) None 0 0 "csrf" false.

(** A request that arrives over TLS without a scheme in its URL. *)
Definition arriving : http.Request :=
  http.mkRequest
    (Some (url.mkURL "" "" None "" "/self-service/browser/flows/login" "" false
             "prompt=login" ""))
    "kratos.example" (Some tt).

(** Ids are dealt from a prepared list, 0 once it is used up. *)
Definition dealUUID : State (list UUID) UUID :=
  λ ids, match ids with [] => (0%N, []) | id :: rest => (id, rest) end.

(** A printer of URLs for the common case: scheme, host, path and query. *)
Definition printURL (u : url.URL) : string :=
  url.Scheme u +:+ "://" +:+ url.Host u +:+ url.Path u +:+ "?" +:+ url.RawQuery u.

(** A clock that advances by one at every reading, from [t] on. *)
Definition ticking (t : time.Time) : time.Clock :=
  time.mkClock (λ n, t + Z.of_nat n) 0.

(** A storage form with two elements that carry distinct methods. *)
Definition stored : Request :=
  blank None (Some [passwordMethod; oidcMethod]).

(** A mapping with a nil pointer among its entries. *)
Definition dangling : Request :=
  blank (Some (<["password" := None]> ∅)) None.

End login_samples.

(** ** Sample collaborators: a store in memory and three validators *)

Module identity_samples.
Import identity.

(** Traits are a document kept as text; the credentials mapping takes a
    credential type to its identifiers, compared as finite maps (so without
    regard to the order of the keys); codes come from a prepared list. *)
Definition declarations : Declarations := {|
  TraitsDoc := string;
  CredentialsMap := gmap CredentialsType (list string);
  CredentialsEqual := λ a b, bool_decide (a = b);
  Entropy := list string;
  NewVerifyCode := λ codes,
    match codes with
    | [] => (inr "entropy source exhausted", [])
    | code :: rest => (inl code, rest)
    end
|}.

#[local] Existing Instance declarations.

Record Store : Type := mkStore {
  identities : gmap UUID Identity;
  addresses : list VerifiableAddress
}.

(** A store in memory that looks at the context before anything else. *)
Definition memoryPool : PrivilegedPool := {|
  PoolState := Store;
  GetIdentityConfidential := λ ctx id s,
    match context.Err ctx with
    | Some cause => (inr (ErrContext cause), s)
    | None =>
        match identities s !! id with
        | Some i => (inl i, s)
        | None => (inr ErrNotFound, s)
        end
    end;
  CreateIdentity := λ ctx i s,
    match context.Err ctx with
    | Some cause => (Some (ErrContext cause), s)
    | None =>
        match identities s !! ID i with
        | Some _ => (Some (ErrPool "identity exists already"), s)
        | None => (None, mkStore (<[ID i := i]> (identities s)) (addresses s))
        end
    end;
  UpdateIdentity := λ ctx i s,
    match context.Err ctx with
    | Some cause => (Some (ErrContext cause), s)
    | None =>
        match identities s !! ID i with
        | Some _ => (None, mkStore (<[ID i := i]> (identities s)) (addresses s))
        | None => (Some ErrNotFound, s)
        end
    end;
  UpdateVerifiableAddress := λ ctx a s,
    match context.Err ctx with
    | Some cause => (Some (ErrContext cause), s)
    | None => (None, mkStore (identities s) (a :: addresses s))
    end
|}.

(** A validator that only checks: empty traits violate the schema. *)
Definition checking : Validator := {|
  Validate := λ i,
    if bool_decide (Traits i = "")
    then (i, Some (SchemaViolation "traits: minimum length is 1"))
    else (i, None)
|}.

(** A validator that, on traits it accepts, also derives the identifier of
    the password credential from them, writing it into the identity it was
    handed. *)
Definition deriving : Validator := {|
  Validate := λ i,
    if bool_decide (Traits i = "")
    then (i, Some (SchemaViolation "traits: minimum length is 1"))
    else (mkIdentity (ID i) (Traits i)
            (<["password" := [Traits i]]> (Credentials i)) (Addresses i), None)
|}.

(** A validator that, on traits it accepts, allocates the address collection
    when it is nil, leaving it empty. *)
Definition allocating : Validator := {|
  Validate := λ i,
    if bool_decide (Traits i = "")
    then (i, Some (SchemaViolation "traits: minimum length is 1"))
    else (mkIdentity (ID i) (Traits i) (Credentials i)
            (Some (default [] (Addresses i))), None)
|}.

Definition hour : time.Duration := 3600000000000.

Definition checkingManager : Manager :=
  NewManager (mkDependencies memoryPool checking) (mkProvider hour).

Definition derivingManager : Manager :=
  NewManager (mkDependencies memoryPool deriving) (mkProvider hour).

Definition allocatingManager : Manager :=
  NewManager (mkDependencies memoryPool allocating) (mkProvider hour).

Definition alice : Identity :=
  mkIdentity 1%N "alice@example.org"
    (<["password" := ["alice@example.org"]]> ∅) None.

(** [alice] with new traits, as each sample validator leaves her. *)
Definition aliceChecked : Identity :=
  mkIdentity 1%N "alice@kratos.example" (Credentials alice) None.

Definition aliceDerived : Identity :=
  mkIdentity 1%N "bob@example.org"
    (<["password" := ["bob@example.org"]]> (Credentials alice)) None.

Definition aliceAllocated : Identity :=
  mkIdentity 1%N "alice@kratos.example" (Credentials alice) (Some []).

Definition nameless : Identity :=
  mkIdentity 2%N "" (<["password" := ["nobody"]]> ∅) None.

Definition mailbox : VerifiableAddress :=
  mkVerifiableAddress "alice@example.org" "email" false "old-code" 5.

Definition storeWithAlice : Store := mkStore (<[1%N := alice]> ∅) [].

Definition start (m : Manager) (s : PoolState (IdentityPool (r m))) : World m :=
  mkWorld s (time.frozen 1000) ["code-1"; "code-2"] [].

Definition canceled : context.Context := context.mkContext (Some context.Canceled).

(** A validator that cannot load its schema. *)
Definition unreachable : Validator := {|
  Validate := λ i, (i, Some (ValidatorFailure "schema: connection refused"))
|}.

Definition unreachableManager : Manager :=
  NewManager (mkDependencies memoryPool unreachable) (mkProvider hour).

(** The world of [start], with the entropy source [codes] and the clock [k]. *)
Definition startWith (m : Manager) (s : PoolState (IdentityPool (r m)))
    (k : time.Clock) (codes : list string) : World m :=
  mkWorld s k codes [].

Definition ticking (t : time.Time) : time.Clock :=
  time.mkClock (λ n, t + Z.of_nat n) 0.

End identity_samples.


(** * Properties of the login flow request *)

Section LoginRequest.
Import login.

(** *** The two loops *)

Lemma appendEach_tagged (raw acc : RequestMethodsRaw) :
  appendEach acc (tag <$> raw) = Some (acc ++ raw).
Proof.
  revert acc. induction raw as [|m raw IH]; intros acc; simpl.
  - by rewrite app_nil_r.
  - rewrite IH. by rewrite <- app_assoc.
Qed.

Lemma appendEach_allocated visit (acc : RequestMethodsRaw) :
  allocated visit → is_Some (appendEach acc visit).
Proof.
  revert acc. induction visit as [|[k [m|]] visit IH]; intros acc Hall; simpl.
  - by eexists.
  - apply IH. intros k' Hin. apply (Hall k'). by right.
  - exfalso. apply (Hall k). by left.
Qed.

Lemma appendEach_elements visit (acc raw : RequestMethodsRaw) :
  appendEach acc visit = Some raw →
  allocated visit ∧ ∀ m, m ∈ raw ↔ m ∈ acc ∨ ∃ k, (k, Some m) ∈ visit.
Proof.
  revert acc. induction visit as [|[k [m|]] visit IH]; intros acc Hrun; simpl in Hrun.
  - injection Hrun as <-. split; [intros k Hin; inversion Hin|].
    intros m. split; [by left|]. intros [?|[k Hin]]; [done|inversion Hin].
  - destruct (IH _ Hrun) as [Hall Hel]. split.
    + intros k' Hin. apply elem_of_cons in Hin as [?|Hin]; [done|]. by apply (Hall k').
    + intros m'. rewrite Hel, elem_of_app, list_elem_of_singleton. split.
      * intros [[?| ->]|[k' Hin]]; [by left|right; exists k; by left|].
        right. exists k'. by right.
      * intros [?|[k' Hin]]; [by left; left|].
        apply elem_of_cons in Hin as [Heq|Hin]; [left; right; congruence|].
        right. by exists k'.
  - discriminate.
Qed.

Lemma tagged_visit (visit : list (CredentialsType * option RequestMethod)) :
  (∀ k p, (k, p) ∈ visit → ∃ m, p = Some m ∧ Method m = k) →
  ∃ raw, visit = tag <$> raw.
Proof.
  induction visit as [|[k p] visit IH]; intros Hkeyed.
  - by exists [].
  - destruct (Hkeyed k p) as (m & -> & <-); [by left|].
    destruct IH as [raw ->]; [intros ???; apply Hkeyed; by right|].
    by exists (m :: raw).
Qed.

Lemma rebuild_snoc (raw : RequestMethodsRaw) m :
  rebuild (raw ++ [m]) = <[Method m := Some m]> (rebuild raw).
Proof. unfold rebuild. by rewrite foldl_snoc. Qed.

Lemma rebuild_list_to_map (raw : RequestMethodsRaw) :
  rebuild raw = list_to_map (reverse (tag <$> raw)).
Proof.
  induction raw as [|m raw IH] using rev_ind; [done|].
  rewrite rebuild_snoc, fmap_app, reverse_app, IH. done.
Qed.

Lemma rebuild_lookup (raw : RequestMethodsRaw) k p :
  rebuild raw !! k = Some p → ∃ m, p = Some m ∧ Method m = k ∧ m ∈ raw.
Proof.
  induction raw as [|m raw IH] using rev_ind; [done|].
  rewrite rebuild_snoc. destruct (decide (Method m = k)) as [<-|Hne].
  - rewrite lookup_insert_eq. intros [= <-]. exists m.
    split_and!; [done..|]. apply elem_of_app. right. by left.
  - rewrite lookup_insert_ne by done. intros (m' & ? & ? & ?)%IH.
    exists m'. split_and!; [done..|]. apply elem_of_app. by left.
Qed.

Lemma rebuild_lookup_last (raw1 raw2 : RequestMethodsRaw) m :
  (∀ m', m' ∈ raw2 → Method m' ≠ Method m) →
  rebuild (raw1 ++ m :: raw2) !! Method m = Some (Some m).
Proof.
  induction raw2 as [|m2 raw2 IH] using rev_ind; intros Hlater.
  - by rewrite rebuild_snoc, lookup_insert_eq.
  - replace (raw1 ++ m :: raw2 ++ [m2]) with ((raw1 ++ m :: raw2) ++ [m2])
      by (by rewrite <- app_assoc).
    rewrite rebuild_snoc, lookup_insert_ne.
    + apply IH. intros m' Hin. apply Hlater, elem_of_app. by left.
    + apply Hlater, elem_of_app. right. by left.
Qed.

Lemma rebuild_is_Some (raw : RequestMethodsRaw) k :
  is_Some (rebuild raw !! k) ↔ ∃ m, m ∈ raw ∧ Method m = k.
Proof.
  split.
  - intros [p (m & _ & ? & ?)%rebuild_lookup]. by exists m.
  - intros (m & Hin & <-). induction raw as [|m' raw IH] using rev_ind.
    + inversion Hin.
    + rewrite rebuild_snoc. destruct (decide (Method m' = Method m)) as [->|Hne].
      * rewrite lookup_insert_eq. by eexists.
      * rewrite lookup_insert_ne by done. apply IH.
        apply elem_of_app in Hin as [?|Hin]; [done|].
        apply list_elem_of_singleton in Hin. congruence.
Qed.

Lemma rebuild_keyedByMethod (raw : RequestMethodsRaw) :
  keyedByMethod (rebuild raw).
Proof. intros k p (m & ? & ? & _)%rebuild_lookup. by exists m. Qed.

(** Rebuilding from the entries of a mapping that is keyed by [Method],
    visited in any order, gives the mapping back. *)
Lemma rebuild_visit (methods : RequestMethods) (raw : RequestMethodsRaw) :
  tag <$> raw ≡ₚ map_to_list methods → rebuild raw = methods.
Proof.
  intros Hperm. rewrite rebuild_list_to_map.
  rewrite <- (list_to_map_to_list methods). apply list_to_map_proper.
  - rewrite reverse_Permutation, Hperm. apply NoDup_fst_map_to_list.
  - by rewrite reverse_Permutation.
Qed.

Lemma roundTrip_unfold visit (r r' : Request) :
  roundTrip visit r = Some r' →
  ∃ raw, appendEach [] visit = Some raw ∧ Methods r' = Some (rebuild raw)
         ∧ MethodsRaw r' = None.
Proof.
  unfold roundTrip, BeforeSave. destruct (appendEach [] visit) as [raw|]; [|done].
  intros [= <-]. by exists raw.
Qed.

Lemma RangeOrder_lookup (methods : RequestMethods) visit k p :
  RangeOrder (Some methods) visit → (k, p) ∈ visit ↔ methods !! k = Some p.
Proof.
  unfold RangeOrder. simpl. intros ->. apply elem_of_map_to_list.
Qed.

Lemma misfiledVisit_order :
  RangeOrder (Methods login_samples.misfiled) login_samples.misfiledVisit.
Proof.
  unfold RangeOrder, login_samples.misfiled, login_samples.misfiledVisit. simpl.
  by rewrite insert_empty, map_to_list_singleton.
Qed.

(** *** Round trip through the storage form *)

(** C4 (as stated, refuted): the request [misfiled] holds one entry under the
    key "password" whose own [Method] is "oidc"; saving and loading it
    returns a request whose mapping is not the original one. *)
Lemma roundTrip_misfiled_differs :
  RangeOrder (Methods login_samples.misfiled) login_samples.misfiledVisit
  ∧ ∃ r', roundTrip login_samples.misfiledVisit login_samples.misfiled = Some r'
          ∧ Methods r' = Some (<["oidc" := Some login_samples.oidcMethod]> ∅)
          ∧ Methods r' ≠ Methods login_samples.misfiled.
Proof.
  split; [apply misfiledVisit_order|].
  eexists. split; [reflexivity|]. split; [reflexivity|].
  intros Heq.
  apply (f_equal (λ o : option RequestMethods, o ≫= (.!! "oidc"))) in Heq.
  by vm_compute in Heq.
Qed.

(** C4 (amended): for a request whose mapping is allocated and keyed by
    [Method] (every entry is a non-nil pointer filed under the credential
    type its own [Method] field names), [BeforeSave] in any order of
    iteration followed by [AfterFind] returns a request with the same mapping
    and a nil storage form; and whatever the storage form holds, [AfterFind]
    files under a credential type the last element that carries it. *)
Theorem roundTrip_keyed_restores (r : Request) (methods : RequestMethods) visit :
  Methods r = Some methods →
  keyedByMethod methods →
  RangeOrder (Methods r) visit →
  (∃ r', roundTrip visit r = Some r' ∧ Methods r' = Methods r
         ∧ MethodsRaw r' = None)
  ∧ (∀ (stored : Request) raw1 m raw2,
       MethodsRaw stored = Some (raw1 ++ m :: raw2) →
       (∀ m', m' ∈ raw2 → Method m' ≠ Method m) →
       ∃ rebuilt, Methods (AfterFind stored).1 = Some rebuilt
                  ∧ rebuilt !! Method m = Some (Some m)).
Proof.
  intros Hm Hkeyed Horder. split.
  - rewrite Hm in Horder.
    destruct (tagged_visit visit) as [raw ->].
    { intros k p Hin. apply (Hkeyed k p). by apply (RangeOrder_lookup _ _ _ _ Horder). }
    unfold roundTrip, BeforeSave. rewrite appendEach_tagged. simpl.
    eexists. split; [reflexivity|]. simpl. split; [|done].
    rewrite Hm. f_equal. by apply rebuild_visit.
  - intros stored raw1 m raw2 Hraw Hlater. exists (rebuild (raw1 ++ m :: raw2)).
    simpl. rewrite Hraw. split; [done|]. by apply rebuild_lookup_last.
Qed.

Lemma roundTrip_keyed_restores_witness :
  (∃ r', roundTrip login_samples.keyedVisit login_samples.keyed = Some r'
         ∧ Methods r' = Methods login_samples.keyed ∧ MethodsRaw r' = None)
  ∧ (∃ rebuilt, Methods (AfterFind login_samples.retried).1 = Some rebuilt
                ∧ rebuilt !! "password" = Some (Some login_samples.passwordRetry)).
Proof.
  destruct (roundTrip_keyed_restores login_samples.keyed
              (<["password" := Some login_samples.passwordMethod]>
                 (<["oidc" := Some login_samples.oidcMethod]> ∅))
              login_samples.keyedVisit) as [Hback Hlast].
  - reflexivity.
  - intros k p Hlook.
    destruct (decide (k = "password")) as [->|Hp].
    + rewrite lookup_insert_eq in Hlook. injection Hlook as <-. by eexists.
    + rewrite lookup_insert_ne in Hlook by done.
      destruct (decide (k = "oidc")) as [->|Ho].
      * rewrite lookup_insert_eq in Hlook. injection Hlook as <-. by eexists.
      * rewrite lookup_insert_ne in Hlook by done. by rewrite lookup_empty in Hlook.
  - unfold RangeOrder, login_samples.keyed, login_samples.keyedVisit. simpl.
    rewrite map_to_list_insert by done.
    by rewrite insert_empty, map_to_list_singleton.
  - split; [exact Hback|].
    apply (Hlast login_samples.retried
             [login_samples.passwordMethod; login_samples.oidcMethod]
             login_samples.passwordRetry [] eq_refl).
    intros m' Hin. inversion Hin.
Defined.

(** *** One representation at a time *)

Lemma appendEachTo_agrees visit (r : Request) (acc : RequestMethodsRaw) :
  MethodsRaw r = Some acc →
  match appendEachTo r visit with
  | inl r' => ∃ raw, appendEach acc visit = Some raw
                     ∧ r' = set_MethodsRaw (Some raw) r
  | inr r' => appendEach acc visit = None
              ∧ Methods r' = Methods r ∧ populated (MethodsRaw r') = true
  end.
Proof.
  revert r acc. induction visit as [|[k [m|]] visit IH]; intros r acc Hraw; simpl.
  - exists acc. split; [done|]. destruct r. simpl in *. by subst.
  - rewrite Hraw. simpl.
    specialize (IH (set_MethodsRaw (Some (acc ++ [m])) r) (acc ++ [m]) eq_refl).
    destruct (appendEachTo _ visit) as [r'|r'].
    + destruct IH as (raw & Hrun & ->). by exists raw.
    + done.
  - by rewrite Hraw.
Qed.

(** The run of [BeforeSave] statement by statement returns exactly what
    [BeforeSave] returns, and panics exactly when it panics; a run that
    panics has allocated [MethodsRaw] and has not touched [Methods]. *)
Lemma BeforeSaveSteps_agrees visit (r : Request) :
  match BeforeSaveSteps visit r with
  | Returned r' e => BeforeSave visit r = Some (r', e)
  | Panicked r' => BeforeSave visit r = None
                   ∧ Methods r' = Methods r ∧ populated (MethodsRaw r') = true
  end.
Proof.
  unfold BeforeSaveSteps, BeforeSave.
  pose proof (appendEachTo_agrees visit (set_MethodsRaw (Some []) r) [] eq_refl)
    as Hrun.
  destruct (appendEachTo _ visit) as [r'|r'].
  - destruct Hrun as (raw & -> & ->). by destruct r.
  - destruct Hrun as (-> & Hm & Hraw). done.
Qed.

(** C6 (as stated, refuted): the mapping of the request [dangling] holds a
    nil pointer under "password". [BeforeSave] allocates [MethodsRaw], then
    panics in the loop before it clears [Methods]: the run ends with both
    representations populated. *)
Lemma BeforeSave_panic_leaves_both :
  RangeOrder (Methods login_samples.dangling) [("password", None)]
  ∧ BeforeSave [("password", None)] login_samples.dangling = None
  ∧ ∃ r', BeforeSaveSteps [("password", None)] login_samples.dangling
          = Panicked r'
          ∧ populated (MethodsRaw r') = true
          ∧ populated (Methods r') = true.
Proof.
  split_and!.
  - unfold RangeOrder, login_samples.dangling. simpl.
    by rewrite insert_empty, map_to_list_singleton.
  - reflexivity.
  - eexists. split_and!; reflexivity.
Qed.

(** C6 (amended): every run of [BeforeSave] that returns leaves [MethodsRaw]
    non-nil and [Methods] nil, and it does return (with a nil error) whenever
    no entry of the mapping is a nil pointer; [AfterFind], [AfterCreate] and
    [AfterUpdate] always return, with [Methods] non-nil and [MethodsRaw]
    nil. So after every run that returns, exactly one of the two
    representations is populated. *)
Theorem hooks_populate_exactly_one visit (r : Request) :
  (∀ r' e, BeforeSave visit r = Some (r', e) →
     e = None ∧ populated (MethodsRaw r') = true ∧ populated (Methods r') = false)
  ∧ (allocated visit → is_Some (BeforeSave visit r))
  ∧ (∀ hook, hook ∈ [AfterFind; AfterCreate; AfterUpdate] →
       (hook r).2 = None
       ∧ populated (Methods (hook r).1) = true
       ∧ populated (MethodsRaw (hook r).1) = false).
Proof.
  split_and!.
  - unfold BeforeSave. intros r' e. destruct (appendEach [] visit); [|done].
    by intros [= <- <-].
  - intros Hall. unfold BeforeSave.
    by destruct (appendEach_allocated visit [] Hall) as [raw ->].
  - intros hook Hin. repeat (apply elem_of_cons in Hin as [->|Hin]); [done..|].
    inversion Hin.
Qed.

Lemma hooks_populate_exactly_one_witness :
  ∃ r', BeforeSave login_samples.keyedVisit login_samples.keyed = Some (r', None)
        ∧ populated (MethodsRaw r') = true ∧ populated (Methods r') = false.
Proof.
  eexists. split; [reflexivity|].
  exact (proj2 (proj1 (hooks_populate_exactly_one
                         login_samples.keyedVisit login_samples.keyed)
                      _ _ eq_refl)).
Defined.

(** *** Keys of the rebuilt mapping *)

(** C10: after [AfterFind] (or [AfterCreate], [AfterUpdate]) the mapping is
    keyed by [Method]; hence a round trip that restores the original mapping
    is possible only if that mapping was keyed by [Method]; and in general
    the keys after a round trip are exactly the [Method] fields of the
    original entries, so an entry filed under another key is filed anew
    under its [Method]. *)
Theorem AfterFind_keys_by_Method :
  (∀ (r : Request) hook, hook ∈ [AfterFind; AfterCreate; AfterUpdate] →
     ∃ rebuilt, Methods (hook r).1 = Some rebuilt ∧ keyedByMethod rebuilt)
  ∧ (∀ visit (r r' : Request) (methods : RequestMethods),
       Methods r = Some methods → RangeOrder (Methods r) visit →
       roundTrip visit r = Some r' →
       (Methods r' = Methods r → keyedByMethod methods)
       ∧ ∃ rebuilt, Methods r' = Some rebuilt
           ∧ ∀ k', is_Some (rebuilt !! k')
                   ↔ ∃ k m, methods !! k = Some (Some m) ∧ Method m = k').
Proof.
  split.
  - intros r hook Hin. exists (rebuild (default [] (MethodsRaw r))).
    split; [|apply rebuild_keyedByMethod].
    repeat (apply elem_of_cons in Hin as [->|Hin]); [done..|]. inversion Hin.
  - intros visit r r' methods Hm Horder (raw & Hrun & Hr' & _)%roundTrip_unfold.
    rewrite Hm in Horder. split.
    + rewrite Hr', Hm. intros [= <-]. apply rebuild_keyedByMethod.
    + exists (rebuild raw). split; [done|]. intros k'.
      rewrite rebuild_is_Some. destruct (appendEach_elements _ _ _ Hrun) as [_ Hel].
      split.
      * intros (m & [Hin|[k Hin]]%Hel & Hk); [inversion Hin|].
        exists k, m. split; [|done]. by apply (RangeOrder_lookup _ _ _ _ Horder).
      * intros (k & m & Hlook & Hk). exists m. split; [|done].
        apply Hel. right. exists k. by apply (RangeOrder_lookup _ _ _ _ Horder).
Qed.

Lemma AfterFind_keys_by_Method_witness :
  ∃ r' rebuilt,
    roundTrip login_samples.misfiledVisit login_samples.misfiled = Some r'
    ∧ Methods r' = Some rebuilt
    ∧ ∀ k', is_Some (rebuilt !! k')
            ↔ ∃ k m, (<["password" := Some login_samples.oidcMethod]> ∅ : RequestMethods)
                       !! k = Some (Some m) ∧ Method m = k'.
Proof.
  destruct (proj2 AfterFind_keys_by_Method
              login_samples.misfiledVisit login_samples.misfiled
              (set_MethodsRaw None
                 (set_Methods (Some (rebuild [login_samples.oidcMethod]))
                    login_samples.misfiled))
              (<["password" := Some login_samples.oidcMethod]> ∅)
              eq_refl misfiledVisit_order eq_refl)
    as [_ (rebuilt & Hr' & Hkeys)].
  eexists _, rebuilt. split; [reflexivity|]. split; [exact Hr'|exact Hkeys].
Defined.

(** *** Validity in time *)

Lemma Sub_in_range (t u : time.Time) :
  time.minDuration ≤ t - u ≤ time.maxDuration → time.Sub t u = t - u.
Proof.
  intros [Hlo Hhi]. unfold time.Sub.
  destruct (Z.ltb_spec (t - u) time.minDuration); [lia|].
  destruct (Z.ltb_spec time.maxDuration (t - u)); [lia|done].
Qed.

(** C7 (as stated, refuted): the request [inverted] expired at 10 and was
    issued at 100. At time 50 its [IssuedAt] is after the current time, yet
    [Valid] returns the expiry error (40 elapsed), not a bad-request error. *)
Lemma Valid_inverted_is_expired :
  time.After (IssuedAt login_samples.inverted) 50 = true
  ∧ (Valid login_samples.inverted (time.frozen 50)).1 = Some (RequestExpired 40)
  ∧ ∀ e, (Valid login_samples.inverted (time.frozen 50)).1 ≠ Some (Herodot e).
Proof. split_and!; [reflexivity..|]. by intros e. Qed.

(** C7 (amended): [Valid] reads the clock once for the expiry check, and
    once more for what follows. If [ExpiresAt] is before the first reading it
    returns the expiry error carrying [time.Since(ExpiresAt)] at the second
    reading (the exact difference whenever that fits a [Duration]); if
    [ExpiresAt] is not before the first reading and [IssuedAt] is after the
    second, it returns the bad-request error; if [ExpiresAt] is not before
    the first reading and [IssuedAt] is not after the second, it returns no
    error. *)
Theorem Valid_verdict (r : Request) (k : time.Clock) :
  let first := time.readings k (time.taken k) in
  let second := time.readings k (S (time.taken k)) in
  (ExpiresAt r < first →
     (Valid r k).1 = Some (RequestExpired (time.Sub second (ExpiresAt r)))
     ∧ (time.minDuration ≤ second - ExpiresAt r ≤ time.maxDuration →
        time.Sub second (ExpiresAt r) = second - ExpiresAt r))
  ∧ (first ≤ ExpiresAt r → second < IssuedAt r →
     (Valid r k).1
     = Some (Herodot (herodot.WithReason herodot.ErrBadRequest
                        "The login request was issued in the future.")))
  ∧ (first ≤ ExpiresAt r → IssuedAt r ≤ second → (Valid r k).1 = None).
Proof.
  intros first second. unfold Valid, st_bind, time.Since, time.Now, st_ret,
    time.Before, time.After. simpl. fold first second.
  split_and!.
  - intros Hexp. split; [|apply Sub_in_range].
    by destruct (Z.ltb_spec (ExpiresAt r) first); [|lia].
  - intros Hlive Hskew.
    destruct (Z.ltb_spec (ExpiresAt r) first); [lia|]. simpl. fold second.
    by destruct (Z.ltb_spec second (IssuedAt r)); [|lia].
  - intros Hlive Hpast.
    destruct (Z.ltb_spec (ExpiresAt r) first); [lia|]. simpl. fold second.
    by destruct (Z.ltb_spec second (IssuedAt r)); [lia|].
Qed.

Lemma Valid_verdict_witness :
  (Valid login_samples.inverted (time.frozen 50)).1 = Some (RequestExpired 40)
  ∧ (Valid login_samples.inverted (time.frozen 5)).1
    = Some (Herodot (herodot.WithReason herodot.ErrBadRequest
                       "The login request was issued in the future."))
  ∧ (Valid login_samples.keyed (time.frozen 50)).1 = None.
Proof.
  split_and!.
  - apply (proj1 (Valid_verdict login_samples.inverted (time.frozen 50))).
    simpl. lia.
  - apply (proj1 (proj2 (Valid_verdict login_samples.inverted (time.frozen 5))));
      simpl; lia.
  - apply (proj2 (proj2 (Valid_verdict login_samples.keyed (time.frozen 50))));
      simpl; lia.
Defined.

End LoginRequest.

(** * Properties of the identity manager *)

Section ManagerProperties.
Import identity.
Context `{D : Declarations}.
Variable m : Manager.

#[local] Abbreviation V := (IdentityValidator (r m)).
#[local] Abbreviation P := (IdentityPool (r m)).

(** *** Options *)

Lemma options_differ :
  ManagerAllowWriteProtectedTraits ≠ ManagerExposeValidationErrors.
Proof.
  intros Heq. by apply (f_equal (λ f, f (mkManagerOptions false false))) in Heq.
Qed.

Lemma options_fold (opts : list ManagerOption) (o : managerOptions) :
  Forall exported opts →
  (AllowWriteProtectedTraits (foldl (λ o f, f o) o opts) = true
     ↔ AllowWriteProtectedTraits o = true ∨ ManagerAllowWriteProtectedTraits ∈ opts)
  ∧ (ExposeValidationErrors (foldl (λ o f, f o) o opts) = true
     ↔ ExposeValidationErrors o = true ∨ ManagerExposeValidationErrors ∈ opts).
Proof.
  intros Hexp. revert o. induction Hexp as [|f opts [-> | ->] _ IH]; intros o.
  - simpl. split; (split; [by left|]); intros [?|Hin]; try done; inversion Hin.
  - simpl. destruct (IH (ManagerExposeValidationErrors o)) as [-> ->]. simpl.
    rewrite !elem_of_cons. pose proof options_differ as Hne.
    intuition congruence.
  - simpl. destruct (IH (ManagerAllowWriteProtectedTraits o)) as [-> ->]. simpl.
    rewrite !elem_of_cons. pose proof options_differ as Hne.
    intuition congruence.
Qed.

Lemma options_passed (opts : list ManagerOption) :
  Forall exported opts →
  (AllowWriteProtectedTraits (newManagerOptions opts) = false
     ↔ ManagerAllowWriteProtectedTraits ∉ opts)
  ∧ (ExposeValidationErrors (newManagerOptions opts) = false
     ↔ ManagerExposeValidationErrors ∉ opts).
Proof.
  intros Hexp. unfold newManagerOptions.
  destruct (options_fold opts (mkManagerOptions false false) Hexp) as [Ha He].
  simpl in *. split.
  - rewrite <- not_true_iff_false, Ha. intuition congruence.
  - rewrite <- not_true_iff_false, He. intuition congruence.
Qed.

(** *** What each method does, step by step *)

Lemma validate_run (i : Identity) (o : managerOptions) (w : World m) :
  validate m i o w
  = (((Validate V i).1, reported o (Validate V i).2),
     mkWorld (pool w) (clock w) (entropy w) (calls w ++ [CallValidate i])).
Proof.
  unfold validate, st_bind, record, st_ret, reported.
  destruct (Validate V i) as [i' [err|]]; simpl; [|done].
  by destruct (causeIsValidationError err && negb (ExposeValidationErrors o)).
Qed.

Lemma Create_run ctx (i : Identity) opts (w : World m) :
  Create m ctx i opts w
  = match reported (newManagerOptions opts) (Validate V i).2 with
    | Some err =>
        (((Validate V i).1, Some err),
         mkWorld (pool w) (clock w) (entropy w) (calls w ++ [CallValidate i]))
    | None =>
        (((Validate V i).1,
          liftError (CreateIdentity P ctx (Validate V i).1 (pool w)).1),
         mkWorld (CreateIdentity P ctx (Validate V i).1 (pool w)).2
           (clock w) (entropy w)
           (calls w ++ [CallValidate i; CallCreateIdentity ctx (Validate V i).1]))
    end.
Proof.
  unfold Create, st_bind. rewrite validate_run.
  destruct (reported _ _); [done|]. unfold record, onPool, st_ret. simpl.
  destruct (CreateIdentity _ _ _ _). simpl. by rewrite <- app_assoc.
Qed.

Lemma Update_run ctx (i : Identity) opts (w : World m) :
  Update m ctx i opts w
  = match reported (newManagerOptions opts) (Validate V i).2 with
    | Some err =>
        (((Validate V i).1, Some err),
         mkWorld (pool w) (clock w) (entropy w) (calls w ++ [CallValidate i]))
    | None =>
        (((Validate V i).1,
          liftError (UpdateIdentity P ctx (Validate V i).1 (pool w)).1),
         mkWorld (UpdateIdentity P ctx (Validate V i).1 (pool w)).2
           (clock w) (entropy w)
           (calls w ++ [CallValidate i; CallUpdateIdentity ctx (Validate V i).1]))
    end.
Proof.
  unfold Update, st_bind. rewrite validate_run.
  destruct (reported _ _); [done|]. unfold record, onPool, st_ret. simpl.
  destruct (UpdateIdentity _ _ _ _). simpl. by rewrite <- app_assoc.
Qed.

Lemma UpdateTraits_read_failed ctx id traits opts (w : World m) err p :
  GetIdentityConfidential P ctx id (pool w) = (inr err, p) →
  UpdateTraits m ctx id traits opts w
  = ((None, Some (OfPool err)),
     mkWorld p (clock w) (entropy w)
       (calls w ++ [CallGetIdentityConfidential ctx id])).
Proof.
  intros Hget. unfold UpdateTraits, st_bind, record, onPool, st_ret. simpl.
  by rewrite Hget.
Qed.

Lemma UpdateTraits_rejected ctx id traits opts (w : World m) original p changed verr :
  GetIdentityConfidential P ctx id (pool w) = (inl original, p) →
  Validate V (set_Traits traits original) = (changed, Some verr) →
  UpdateTraits m ctx id traits opts w
  = ((Some changed, reported (newManagerOptions opts) (Some verr)),
     mkWorld p (clock w) (entropy w)
       (calls w ++ [CallGetIdentityConfidential ctx id;
                    CallValidate (set_Traits traits original)])).
Proof.
  intros Hget Hval. unfold UpdateTraits, st_bind, record, onPool. simpl.
  rewrite Hget. unfold deepcopy_Copy. rewrite validate_run, Hval. simpl.
  rewrite <- app_assoc. simpl.
  by destruct (causeIsValidationError verr && negb _).
Qed.

Lemma UpdateTraits_validated ctx id traits opts (w : World m) original p validated :
  GetIdentityConfidential P ctx id (pool w) = (inl original, p) →
  Validate V (set_Traits traits original) = (validated, None) →
  UpdateTraits m ctx id traits opts w
  = if negb (AllowWriteProtectedTraits (newManagerOptions opts))
       && negb (protectedUnchanged original validated)
    then ((Some original, Some (Herodot ErrProtectedFieldModified)),
          mkWorld p (clock w) (entropy w)
            (calls w ++ [CallGetIdentityConfidential ctx id;
                         CallValidate (set_Traits traits original)]))
    else ((Some validated, liftError (UpdateIdentity P ctx validated p).1),
          mkWorld (UpdateIdentity P ctx validated p).2 (clock w) (entropy w)
            (calls w ++ [CallGetIdentityConfidential ctx id;
                         CallValidate (set_Traits traits original);
                         CallUpdateIdentity ctx validated])).
Proof.
  intros Hget Hval. unfold UpdateTraits, st_bind, record, onPool. simpl.
  rewrite Hget. unfold deepcopy_Copy. rewrite validate_run, Hval. simpl.
  unfold protectedUnchanged, addressesUnchanged, st_ret.
  destruct (AllowWriteProtectedTraits (newManagerOptions opts)),
    (CredentialsEqual _ _), (DeepEqual _ _), (_ =? _)%nat; simpl;
    destruct (UpdateIdentity P ctx validated p) as [err p']; simpl;
    by rewrite <- !app_assoc.
Qed.

Lemma RefreshVerifyAddress_run ctx (address : VerifiableAddress) (w : World m) :
  RefreshVerifyAddress m ctx address w
  = match (NewVerifyCode (entropy w)).1 with
    | inr err =>
        ((address, Some (OfNewVerifyCode err)),
         mkWorld (pool w) (clock w) (NewVerifyCode (entropy w)).2
           (calls w ++ [CallNewVerifyCode]))
    | inl code =>
        let refreshed :=
          mkVerifiableAddress (Value address) (Via address) (Verified address) code
            (time.readings (clock w) (time.taken (clock w))
             + SelfServiceVerificationLinkLifespan (c m)) in
        ((refreshed, liftError (UpdateVerifiableAddress P ctx refreshed (pool w)).1),
         mkWorld (UpdateVerifiableAddress P ctx refreshed (pool w)).2
           (time.Now (clock w)).2 (NewVerifyCode (entropy w)).2
           (calls w ++ [CallNewVerifyCode;
                        CallUpdateVerifiableAddress ctx refreshed]))
    end.
Proof.
  unfold RefreshVerifyAddress, st_bind, record, onEntropy, onClock, onPool, st_ret.
  simpl. destruct (NewVerifyCode (entropy w)) as [[code|err] e']; simpl; [|done].
  unfold set_ExpiresAt, set_Code, time.Add, time.UTC. simpl.
  destruct (UpdateVerifiableAddress _ _ _ _). simpl. by rewrite <- app_assoc.
Qed.

Lemma protectedUnchanged_false (original current : Identity) :
  protectedUnchanged original current = false
  ↔ CredentialsEqual (Credentials current) (Credentials original) = false
    ∨ (Addresses original ≠ Addresses current
       ∧ (len (Addresses original) + len (Addresses current))%nat ≠ 0%nat).
Proof.
  unfold protectedUnchanged, addressesUnchanged, DeepEqual.
  rewrite andb_false_iff, orb_false_iff, bool_decide_eq_false, Nat.eqb_neq.
  done.
Qed.

Lemma liftError_not_Herodot (e : option PoolError) h :
  liftError e ≠ Some (Herodot h).
Proof. by destruct e. Qed.

(** *** The guard on protected fields *)

(** C1: when the confidential read returns [original] and the validator
    accepts the working identity, leaving it as [validated], [UpdateTraits]
    returns [ErrProtectedFieldModified] exactly when the options do not allow
    writing protected traits and [validated] differs from [original] under
    the guard's equality (credentials not [CredentialsEqual], or addresses
    not deeply equal and not both empty). For options built from the
    exported ones, "do not allow" means [ManagerAllowWriteProtectedTraits]
    was not passed. Whenever that error is returned, the working identity is
    [original] again, traits included, and the only calls made are the read
    and the validation: the store is as the read left it. *)
Theorem UpdateTraits_protected_guard ctx id traits opts (w : World m)
    original p validated :
  GetIdentityConfidential P ctx id (pool w) = (inl original, p) →
  Validate V (set_Traits traits original) = (validated, None) →
  let out := UpdateTraits m ctx id traits opts w in
  (out.1.2 = Some (Herodot ErrProtectedFieldModified)
   ↔ AllowWriteProtectedTraits (newManagerOptions opts) = false
     ∧ (CredentialsEqual (Credentials validated) (Credentials original) = false
        ∨ (Addresses original ≠ Addresses validated
           ∧ (len (Addresses original) + len (Addresses validated))%nat ≠ 0%nat)))
  ∧ (Forall exported opts →
     (AllowWriteProtectedTraits (newManagerOptions opts) = false
      ↔ ManagerAllowWriteProtectedTraits ∉ opts))
  ∧ (out.1.2 = Some (Herodot ErrProtectedFieldModified) →
     out.1.1 = Some original
     ∧ Forall (λ e, isStoreWrite e = false) (drop (length (calls w)) (calls out.2))
     ∧ out.2 = mkWorld p (clock w) (entropy w)
                 (calls w ++ [CallGetIdentityConfidential ctx id;
                              CallValidate (set_Traits traits original)])).
Proof.
  intros Hget Hval out. unfold out.
  rewrite (UpdateTraits_validated _ _ _ _ _ _ _ _ Hget Hval).
  rewrite <- protectedUnchanged_false.
  split_and!.
  - destruct (AllowWriteProtectedTraits (newManagerOptions opts)),
      (protectedUnchanged original validated); simpl; split;
      try (intros Herr; by apply liftError_not_Herodot in Herr);
      try done; intros [? ?]; congruence.
  - intros Hexp. apply (options_passed opts Hexp).
  - destruct (negb _ && negb _); simpl;
      [|intros Herr; by apply liftError_not_Herodot in Herr].
    intros _. split_and!; [done| |done].
    rewrite drop_app_length. by repeat constructor.
Qed.

(** C2 (amended): when the confidential read returns [original] and the
    validator accepts the working identity, leaving it as [validated],
    [UpdateTraits] with no option: if [validated] equals [original] under the
    guard's equality, calls the store's [UpdateIdentity] once, with
    [validated], and returns what that call returns (so it succeeds exactly
    when the update does), and the credentials and addresses handed to the
    store are equal to the snapshot's under the guard's equality; that is the
    case whenever the validator leaves the identity as it received it and
    [CredentialsEqual] holds of the credentials and themselves, and then only
    [Traits] differs from the snapshot; otherwise the call returns
    [ErrProtectedFieldModified]. *)
Theorem UpdateTraits_default_options ctx id traits (w : World m)
    original p validated :
  GetIdentityConfidential P ctx id (pool w) = (inl original, p) →
  Validate V (set_Traits traits original) = (validated, None) →
  let out := UpdateTraits m ctx id traits [] w in
  let written := UpdateIdentity P ctx validated p in
  (protectedUnchanged original validated = true →
     out = ((Some validated, liftError written.1),
            mkWorld written.2 (clock w) (entropy w)
              (calls w ++ [CallGetIdentityConfidential ctx id;
                           CallValidate (set_Traits traits original);
                           CallUpdateIdentity ctx validated]))
     ∧ (out.1.2 = None ↔ written.1 = None)
     ∧ CredentialsEqual (Credentials validated) (Credentials original) = true
     ∧ (Addresses validated = Addresses original
        ∨ (len (Addresses original) = 0 ∧ len (Addresses validated) = 0)%nat))
  ∧ (validated = set_Traits traits original →
     CredentialsEqual (Credentials original) (Credentials original) = true →
     protectedUnchanged original validated = true
     ∧ ID validated = ID original ∧ Traits validated = traits
     ∧ Credentials validated = Credentials original
     ∧ Addresses validated = Addresses original)
  ∧ (protectedUnchanged original validated = false →
     out.1.2 = Some (Herodot ErrProtectedFieldModified)).
Proof.
  intros Hget Hval out written. unfold out, written.
  rewrite (UpdateTraits_validated _ _ _ _ _ _ _ _ Hget Hval). simpl.
  split_and!.
  - intros Hsame. rewrite Hsame. simpl. split_and!; [done| | |].
    + by destruct (UpdateIdentity P ctx validated p) as [[e|] ?].
    + unfold protectedUnchanged in Hsame. by apply andb_true_iff in Hsame as [? _].
    + unfold protectedUnchanged, addressesUnchanged, DeepEqual in Hsame.
      apply andb_true_iff in Hsame as [_ [Heq|Hlen]%orb_true_iff].
      * left. symmetry. by apply bool_decide_eq_true in Heq.
      * right. apply Nat.eqb_eq in Hlen. lia.
  - intros -> Hrefl. unfold protectedUnchanged, addressesUnchanged, DeepEqual.
    simpl. rewrite Hrefl, bool_decide_eq_true_2; done.
  - by intros ->.
Qed.

(** C3: in [UpdateTraits] without the privilege, the credentials being
    [CredentialsEqual], [ErrProtectedFieldModified] is returned exactly when
    the two address collections differ structurally and their lengths do not
    add up to zero. Two collections whose lengths add up to zero are each nil
    or empty: if they differ (one nil, one empty) the guard lets the update
    through to the store. *)
Theorem UpdateTraits_addresses_guard ctx id traits opts (w : World m)
    original p validated :
  GetIdentityConfidential P ctx id (pool w) = (inl original, p) →
  Validate V (set_Traits traits original) = (validated, None) →
  AllowWriteProtectedTraits (newManagerOptions opts) = false →
  CredentialsEqual (Credentials validated) (Credentials original) = true →
  let out := UpdateTraits m ctx id traits opts w in
  (out.1.2 = Some (Herodot ErrProtectedFieldModified)
   ↔ Addresses original ≠ Addresses validated
     ∧ (len (Addresses original) + len (Addresses validated))%nat ≠ 0%nat)
  ∧ ((len (Addresses original) + len (Addresses validated))%nat = 0%nat
     ↔ (Addresses original = None ∨ Addresses original = Some [])
       ∧ (Addresses validated = None ∨ Addresses validated = Some []))
  ∧ (Addresses original ≠ Addresses validated →
     (len (Addresses original) + len (Addresses validated))%nat = 0%nat →
     out.1 = (Some validated, liftError (UpdateIdentity P ctx validated p).1)
     ∧ out.1.2 ≠ Some (Herodot ErrProtectedFieldModified)).
Proof.
  intros Hget Hval Hallow Hcred out.
  destruct (UpdateTraits_protected_guard ctx id traits opts w original p validated
              Hget Hval) as (Hiff & _ & _).
  fold out in Hiff. split_and!.
  - rewrite Hiff. split.
    + intros [_ [?|?]]; [congruence|done].
    + intros ?. split; [done|by right].
  - unfold len. destruct (Addresses original) as [[|??]|],
      (Addresses validated) as [[|??]|]; simpl; split;
      try lia; try (intros [[?|?] [?|?]]; congruence); intros _; split; auto.
  - intros Hne Hlen.
    assert (out.1.2 ≠ Some (Herodot ErrProtectedFieldModified)) as Hno.
    { rewrite Hiff. intros [_ [?|[_ ?]]]; [congruence|done]. }
    split; [|done]. unfold out in *.
    rewrite (UpdateTraits_validated _ _ _ _ _ _ _ _ Hget Hval) in *.
    destruct (negb _ && negb _); [by destruct Hno|done].
Qed.

(** *** Validation failures *)

(** C5: when the validator reports a schema violation, [Create], [Update]
    and [UpdateTraits] (its confidential read having succeeded) return at
    once: the bad-request error built from the text of the violation if the
    options do not expose validation errors, the violation itself if they
    do. The only call made after the read is the validation, and the store
    is not written. For options built from the exported ones, "do not
    expose" means [ManagerExposeValidationErrors] was not passed. *)
Theorem schema_violation_policy ctx opts (w : World m) detail :
  let o := newManagerOptions opts in
  let failure :=
    if ExposeValidationErrors o then OfValidator (SchemaViolation detail)
    else Herodot (herodot.WithReason herodot.ErrBadRequest detail) in
  (∀ i changed,
     Validate V i = (changed, Some (SchemaViolation detail)) →
     Create m ctx i opts w
     = ((changed, Some failure),
        mkWorld (pool w) (clock w) (entropy w) (calls w ++ [CallValidate i]))
     ∧ Update m ctx i opts w
       = ((changed, Some failure),
          mkWorld (pool w) (clock w) (entropy w) (calls w ++ [CallValidate i])))
  ∧ (∀ id traits original p changed,
       GetIdentityConfidential P ctx id (pool w) = (inl original, p) →
       Validate V (set_Traits traits original)
       = (changed, Some (SchemaViolation detail)) →
       UpdateTraits m ctx id traits opts w
       = ((Some changed, Some failure),
          mkWorld p (clock w) (entropy w)
            (calls w ++ [CallGetIdentityConfidential ctx id;
                         CallValidate (set_Traits traits original)])))
  ∧ (ExposeValidationErrors o = false → isBadRequest failure = true)
  ∧ (Forall exported opts →
     (ExposeValidationErrors o = false ↔ ManagerExposeValidationErrors ∉ opts)).
Proof.
  intros o failure.
  assert (reported o (Some (SchemaViolation detail)) = Some failure) as Hrep.
  { unfold reported, failure. simpl. by destruct (ExposeValidationErrors o). }
  split_and!.
  - intros i changed Hval. rewrite Create_run, Update_run, Hval.
    cbn [fst snd]. fold o. by rewrite Hrep.
  - intros id traits original p changed Hget Hval.
    rewrite (UpdateTraits_rejected _ _ _ _ _ _ _ _ _ Hget Hval). fold o.
    by rewrite Hrep.
  - unfold failure. by intros ->.
  - intros Hexp. apply (options_passed opts Hexp).
Qed.

(** *** Refreshing a verification code *)

(** C8: with a positive lifespan configured, a call of
    [RefreshVerifyAddress] that returns no error leaves the address with the
    code [NewVerifyCode] generated, with [ExpiresAt] at the reading of the
    clock plus the lifespan (so after that reading), and with [Value], [Via]
    and [Verified] as they were; the calls it made are the code generation
    and one [UpdateVerifiableAddress] of the store, which received that
    address and reported no error: no validation, no read or write of an
    identity. *)
Theorem RefreshVerifyAddress_refreshes ctx address (w : World m) :
  0 < SelfServiceVerificationLinkLifespan (c m) →
  let out := RefreshVerifyAddress m ctx address w in
  out.1.2 = None →
  let now := time.readings (clock w) (time.taken (clock w)) in
  let refreshed := out.1.1 in
  (NewVerifyCode (entropy w)).1 = inl (Code refreshed)
  ∧ ExpiresAt refreshed = now + SelfServiceVerificationLinkLifespan (c m)
  ∧ now < ExpiresAt refreshed
  ∧ Value refreshed = Value address
  ∧ Via refreshed = Via address
  ∧ Verified refreshed = Verified address
  ∧ calls out.2
    = calls w ++ [CallNewVerifyCode; CallUpdateVerifiableAddress ctx refreshed]
  ∧ UpdateVerifiableAddress P ctx refreshed (pool w) = (None, pool out.2).
Proof.
  intros Hpos out. unfold out. rewrite RefreshVerifyAddress_run.
  destruct (NewVerifyCode (entropy w)).1 as [code|err]; simpl; [|done].
  destruct (UpdateVerifiableAddress P ctx _ (pool w)) as [[e|] p'] eqn:Hupd;
    simpl; [done|].
  intros _. split_and!; try done. lia.
Qed.

(** *** Contexts that are done *)

(** C9 (amended): the manager does not look at the context, it hands it to
    the store. With a context that is done and a store that answers such a
    context with its cause: [UpdateTraits] returns that cancellation error
    from the confidential read, before any validation or write; [Create] and
    [Update] run the validator first and return its failure if it reports
    one, and only otherwise reach the store and return the cancellation
    error; [RefreshVerifyAddress] generates the code and sets [Code] and
    [ExpiresAt] on the address before the store is handed the context and
    returns the cancellation error. *)
Theorem done_context_reaches_store ctx cause opts (w : World m) :
  context.Err ctx = Some cause →
  honoursContext P →
  (∀ id traits,
     UpdateTraits m ctx id traits opts w
     = ((None, Some (OfPool (ErrContext cause))),
        mkWorld (pool w) (clock w) (entropy w)
          (calls w ++ [CallGetIdentityConfidential ctx id])))
  ∧ (∀ i,
       let changed := (Validate V i).1 in
       match reported (newManagerOptions opts) (Validate V i).2 with
       | Some err =>
           isCancellation err = false
           ∧ Create m ctx i opts w
             = ((changed, Some err),
                mkWorld (pool w) (clock w) (entropy w) (calls w ++ [CallValidate i]))
           ∧ Update m ctx i opts w
             = ((changed, Some err),
                mkWorld (pool w) (clock w) (entropy w) (calls w ++ [CallValidate i]))
       | None =>
           Create m ctx i opts w
           = ((changed, Some (OfPool (ErrContext cause))),
              mkWorld (pool w) (clock w) (entropy w)
                (calls w ++ [CallValidate i; CallCreateIdentity ctx changed]))
           ∧ Update m ctx i opts w
             = ((changed, Some (OfPool (ErrContext cause))),
                mkWorld (pool w) (clock w) (entropy w)
                  (calls w ++ [CallValidate i; CallUpdateIdentity ctx changed]))
       end)
  ∧ (∀ address,
       match (NewVerifyCode (entropy w)).1 with
       | inl code =>
           let refreshed :=
             mkVerifiableAddress (Value address) (Via address) (Verified address)
               code
               (time.readings (clock w) (time.taken (clock w))
                + SelfServiceVerificationLinkLifespan (c m)) in
           RefreshVerifyAddress m ctx address w
           = ((refreshed, Some (OfPool (ErrContext cause))),
              mkWorld (pool w) (time.Now (clock w)).2 (NewVerifyCode (entropy w)).2
                (calls w ++ [CallNewVerifyCode;
                             CallUpdateVerifiableAddress ctx refreshed]))
       | inr err =>
           RefreshVerifyAddress m ctx address w
           = ((address, Some (OfNewVerifyCode err)),
              mkWorld (pool w) (clock w) (NewVerifyCode (entropy w)).2
                (calls w ++ [CallNewVerifyCode]))
       end).
Proof.
  intros Hdone Hstore.
  destruct (Hstore ctx cause Hdone) as (Hget & Hcreate & Hupdate & Haddress).
  split_and!.
  - intros id traits. by apply UpdateTraits_read_failed.
  - intros i changed. rewrite Create_run, Update_run.
    destruct (reported _ _) as [err|] eqn:Hrep.
    + split; [|done]. unfold reported in Hrep.
      destruct (Validate V i).2 as [verr|]; [|done].
      by destruct (causeIsValidationError verr && negb _); injection Hrep as <-.
    + by rewrite Hcreate, Hupdate.
  - intros address. rewrite RefreshVerifyAddress_run.
    destruct (NewVerifyCode (entropy w)).1 as [code|err]; [|done].
    simpl. by rewrite Haddress.
Qed.

End ManagerProperties.

(** * The properties at work on the sample collaborators *)

Section ManagerSamples.
Import identity identity_samples.
#[local] Existing Instance declarations.

Lemma memoryPool_honoursContext : honoursContext memoryPool.
Proof.
  intros ctx cause Hdone. simpl. rewrite Hdone. by split_and!.
Qed.

Lemma UpdateTraits_protected_guard_witness :
  let out := UpdateTraits derivingManager context.Background 1%N
               "bob@example.org" [] (start derivingManager storeWithAlice) in
  out.1.2 = Some (Herodot ErrProtectedFieldModified) ∧ out.1.1 = Some alice.
Proof.
  destruct (UpdateTraits_protected_guard (D:=declarations) derivingManager context.Background 1%N
              "bob@example.org" [] (start derivingManager storeWithAlice)
              alice storeWithAlice
              aliceDerived
              eq_refl eq_refl) as (Hiff & _ & Hreset).
  assert (Hfires := proj2 Hiff (conj eq_refl (or_introl eq_refl))).
  split; [exact Hfires|exact (proj1 (Hreset Hfires))].
Defined.

(** C2 (as stated, refuted): the identity [alice] is in the store and the
    validator accepts the new traits, deriving the password identifier from
    them as it does; yet [UpdateTraits] with no option does not succeed: it
    returns [ErrProtectedFieldModified]. *)
Lemma UpdateTraits_default_blocked :
  GetIdentityConfidential memoryPool context.Background 1%N storeWithAlice
  = (inl alice, storeWithAlice)
  ∧ (Validate deriving (set_Traits "bob@example.org" alice)).2 = None
  ∧ (UpdateTraits derivingManager context.Background 1%N "bob@example.org" []
       (start derivingManager storeWithAlice)).1.2
    = Some (Herodot ErrProtectedFieldModified).
Proof. split_and!; reflexivity. Qed.

Lemma UpdateTraits_default_options_witness :
  let out := UpdateTraits checkingManager context.Background 1%N
               "alice@kratos.example" [] (start checkingManager storeWithAlice) in
  out.1 = (Some aliceChecked, None)
  ∧ pool out.2 = mkStore (<[1%N := aliceChecked]> (identities storeWithAlice)) [].
Proof.
  destruct (UpdateTraits_default_options (D:=declarations) checkingManager context.Background 1%N
              "alice@kratos.example" (start checkingManager storeWithAlice)
              alice storeWithAlice aliceChecked
              eq_refl eq_refl) as (Hpass & _ & _).
  destruct (Hpass eq_refl) as (Hout & _). simpl. rewrite Hout. done.
Defined.

Lemma UpdateTraits_addresses_guard_witness :
  let out := UpdateTraits allocatingManager context.Background 1%N
               "alice@kratos.example" [] (start allocatingManager storeWithAlice) in
  Addresses alice = None
  ∧ out.1.1 = Some aliceAllocated ∧ Addresses aliceAllocated = Some []
  ∧ out.1.2 ≠ Some (Herodot ErrProtectedFieldModified).
Proof.
  destruct (UpdateTraits_addresses_guard (D:=declarations) allocatingManager context.Background 1%N
              "alice@kratos.example" [] (start allocatingManager storeWithAlice)
              alice storeWithAlice
              aliceAllocated
              eq_refl eq_refl eq_refl eq_refl) as (_ & _ & Hthrough).
  destruct Hthrough as [Hout Hno]; [done|done|].
  split; [done|]. split; [|split; [done|exact Hno]]. simpl. by rewrite Hout.
Defined.

Lemma schema_violation_policy_witness :
  Create checkingManager context.Background nameless []
    (start checkingManager storeWithAlice)
  = ((nameless,
      Some (Herodot (herodot.WithReason herodot.ErrBadRequest
                       "traits: minimum length is 1"))),
     mkWorld (m:=checkingManager) storeWithAlice (time.frozen 1000)
       ["code-1"; "code-2"] [CallValidate nameless]).
Proof.
  exact (proj1 (proj1 (schema_violation_policy (D:=declarations) checkingManager context.Background []
                         (start checkingManager storeWithAlice)
                         "traits: minimum length is 1")
                      nameless nameless eq_refl)).
Defined.

Lemma RefreshVerifyAddress_refreshes_witness :
  let out := RefreshVerifyAddress checkingManager context.Background mailbox
               (start checkingManager storeWithAlice) in
  out.1.2 = None
  ∧ Code out.1.1 = "code-1"
  ∧ ExpiresAt out.1.1 = 1000 + hour
  ∧ 1000 < ExpiresAt out.1.1.
Proof.
  destruct (RefreshVerifyAddress_refreshes (D:=declarations) checkingManager context.Background
              mailbox (start checkingManager storeWithAlice) eq_refl eq_refl)
    as (Hcode & Hexp & Hlater & _).
  split; [reflexivity|]. split; [|split; [exact Hexp|exact Hlater]].
  apply (f_equal (λ g : string + string,
                    match g with inl code => code | inr _ => "" end)) in Hcode.
  symmetry. exact Hcode.
Defined.

(** C9 (as stated, refuted): [Create] is called with a context that is done
    already, on an identity whose traits violate the schema. It runs the
    validator and returns its bad-request error, which is not of the
    cancellation class; and [RefreshVerifyAddress], called with the same
    context, has rewritten the code and the expiry of the address by the time
    the store turns the call down. *)
Lemma Create_done_context_validates :
  context.isDone canceled = true
  ∧ (let out := Create checkingManager canceled nameless []
                  (start checkingManager storeWithAlice) in
     out.1.2 = Some (Herodot (herodot.WithReason herodot.ErrBadRequest
                                "traits: minimum length is 1"))
     ∧ (∀ e, out.1.2 = Some e → isCancellation e = false)
     ∧ calls out.2 = [CallValidate nameless])
  ∧ (let out := RefreshVerifyAddress checkingManager canceled mailbox
                  (start checkingManager storeWithAlice) in
     out.1.2 = Some (OfPool (ErrContext context.Canceled))
     ∧ Code out.1.1 = "code-1" ∧ Code mailbox = "old-code").
Proof.
  split; [reflexivity|]. split.
  - split_and!; [reflexivity| |reflexivity].
    intros e Heq. vm_compute in Heq. by injection Heq as <-.
  - split_and!; reflexivity.
Qed.

Lemma done_context_reaches_store_witness :
  (UpdateTraits checkingManager canceled 1%N "alice@kratos.example" []
     (start checkingManager storeWithAlice)).1
  = (None, Some (OfPool (ErrContext context.Canceled))).
Proof.
  destruct (done_context_reaches_store (D:=declarations) checkingManager canceled context.Canceled []
              (start checkingManager storeWithAlice) eq_refl
              memoryPool_honoursContext) as (Hfast & _).
  by rewrite Hfast.
Defined.

End ManagerSamples.

(** * Further properties of the login flow request *)

Section LoginRequestHooks.
Import login.

Lemma appendEach_panics visit (acc : RequestMethodsRaw) :
  appendEach acc visit = None ↔ ∃ k, (k, None) ∈ visit.
Proof.
  revert acc. induction visit as [|[k [m|]] visit IH]; intros acc; simpl.
  - split; [done|]. intros [k Hin]. inversion Hin.
  - rewrite IH. split; intros [k' Hin]; exists k'.
    + by right.
    + by apply elem_of_cons in Hin as [?|?].
  - split; [|done]. intros _. exists k. by left.
Qed.

Lemma appendEach_values visit (acc raw : RequestMethodsRaw) :
  appendEach acc visit = Some raw → Some <$> raw = (Some <$> acc) ++ visit.*2.
Proof.
  revert acc. induction visit as [|[k [m|]] visit IH]; intros acc Hrun;
    simpl in Hrun.
  - injection Hrun as <-. by rewrite app_nil_r.
  - rewrite (IH _ Hrun), fmap_app, <- app_assoc. done.
  - discriminate.
Qed.

Lemma RangeOrder_nil visit : RangeOrder None visit → visit = [].
Proof. unfold RangeOrder. simpl. apply Permutation_nil_r. Qed.

(** X1: over a mapping that is not nil, [BeforeSave] panics exactly when
    some entry of the mapping is a nil pointer, whatever the order of
    iteration; over a nil mapping it never panics and leaves an empty,
    allocated storage form. *)
Theorem BeforeSave_panics_on_nil_entry (r : Request) visit :
  RangeOrder (Methods r) visit →
  (∀ methods : RequestMethods, Methods r = Some methods →
     (BeforeSave visit r = None ↔ ∃ k, methods !! k = Some None))
  ∧ (Methods r = None →
     BeforeSave visit r = Some (set_MethodsRaw (Some []) r, None)).
Proof.
  intros Horder. split.
  - intros methods Hm. rewrite Hm in Horder. unfold BeforeSave.
    destruct (appendEach [] visit) as [raw|] eqn:Hrun.
    + split; [done|]. intros [k Hk].
      apply (RangeOrder_lookup _ _ _ _ Horder) in Hk.
      assert (appendEach [] visit = None) as Hno
        by (apply appendEach_panics; by exists k).
      congruence.
    + split; [|done]. intros _. apply appendEach_panics in Hrun as [k Hin].
      exists k. by apply (RangeOrder_lookup _ _ _ _ Horder).
  - intros Hnil. rewrite Hnil in Horder. apply RangeOrder_nil in Horder as ->.
    unfold BeforeSave. simpl. by destruct r; simpl in *; subst.
Qed.

Lemma BeforeSave_panics_on_nil_entry_witness :
  BeforeSave [("password", None)] login_samples.dangling = None.
Proof.
  assert (RangeOrder (Methods login_samples.dangling) [("password", None)])
    as Horder.
  { unfold RangeOrder, login_samples.dangling. simpl.
    by rewrite insert_empty, map_to_list_singleton. }
  destruct (BeforeSave_panics_on_nil_entry login_samples.dangling
              [("password", None)] Horder) as [Hpanic _].
  apply (Hpanic _ eq_refl). exists "password". apply lookup_insert_eq.
Defined.

(** X2: a run of [BeforeSave] that returns stores the values of the mapping
    in the order in which it visited them and nothing else: the storage form
    has one element per entry of the mapping, and the keys are dropped. *)
Theorem BeforeSave_stores_the_values (r r' : Request) (methods : RequestMethods)
    visit e :
  Methods r = Some methods →
  RangeOrder (Methods r) visit →
  BeforeSave visit r = Some (r', e) →
  ∃ raw, MethodsRaw r' = Some raw
         ∧ Some <$> raw = visit.*2
         ∧ length raw = size methods
         ∧ ∀ m, m ∈ raw ↔ ∃ k, methods !! k = Some (Some m).
Proof.
  intros Hm Horder. rewrite Hm in Horder. unfold BeforeSave.
  destruct (appendEach [] visit) as [raw|] eqn:Hrun; [|done].
  intros [= <- <-]. exists raw. simpl.
  pose proof (appendEach_values _ _ _ Hrun) as Hval. simpl in Hval.
  split_and!; [done|done| |].
  - rewrite <- (length_fmap Some), Hval, length_fmap.
    unfold RangeOrder in Horder. simpl in Horder.
    by rewrite Horder, length_map_to_list.
  - intros m. destruct (appendEach_elements _ _ _ Hrun) as [_ ->]. split.
    + intros [Hin|[k Hin]]; [inversion Hin|]. exists k.
      by apply (RangeOrder_lookup _ _ _ _ Horder).
    + intros [k Hk]. right. exists k.
      by apply (RangeOrder_lookup _ _ _ _ Horder).
Qed.

Lemma BeforeSave_stores_the_values_witness :
  ∃ raw, MethodsRaw
           (set_Methods None
              (set_MethodsRaw
                 (Some [login_samples.passwordMethod; login_samples.oidcMethod])
                 login_samples.keyed))
         = Some raw
         ∧ Some <$> raw = login_samples.keyedVisit.*2
         ∧ length raw = 2%nat
         ∧ ∀ m, m ∈ raw
                ↔ ∃ k, (<["password" := Some login_samples.passwordMethod]>
                          (<["oidc" := Some login_samples.oidcMethod]> ∅)
                        : RequestMethods) !! k = Some (Some m).
Proof.
  assert (RangeOrder (Methods login_samples.keyed) login_samples.keyedVisit)
    as Horder.
  { unfold RangeOrder, login_samples.keyed, login_samples.keyedVisit. simpl.
    rewrite map_to_list_insert by done.
    by rewrite insert_empty, map_to_list_singleton. }
  exact (BeforeSave_stores_the_values login_samples.keyed _ _
           login_samples.keyedVisit None eq_refl Horder eq_refl).
Defined.



Lemma rebuild_size (raw : RequestMethodsRaw) :
  (size (rebuild raw) ≤ length raw)%nat
  ∧ (size (rebuild raw) = length raw ↔ NoDup (Method <$> raw)).
Proof.
  induction raw as [|m raw [IHle IHeq]] using rev_ind.
  - split; [done|]. split; [constructor|done].
  - rewrite rebuild_snoc, length_app, fmap_app, map_size_insert. simpl.
    rewrite NoDup_app.
    destruct (rebuild raw !! Method m) as [p|] eqn:Hlook; simpl.
    + split; [lia|]. split; [lia|]. intros (_ & Hfresh & _). exfalso.
      destruct (rebuild_lookup _ _ _ Hlook) as (m' & _ & Hkey & Hin).
      apply (Hfresh (Method m)); [|by left].
      rewrite <- Hkey. by apply list_elem_of_fmap_2.
    + split; [lia|]. split.
      * intros Hsz. split_and!; [apply IHeq; lia| |apply NoDup_singleton].
        intros k Hk ->%list_elem_of_singleton.
        apply list_elem_of_fmap in Hk as (m' & Hkey & Hin).
        assert (is_Some (rebuild raw !! Method m)) as [? ?]
          by (apply rebuild_is_Some; by exists m').
        congruence.
      * intros (Hnd & _ & _). apply IHeq in Hnd. lia.
Qed.

Lemma roundTrip_memory_form (r : Request) (methods : RequestMethods) visit :
  Methods r = Some methods →
  keyedByMethod methods →
  RangeOrder (Methods r) visit →
  roundTrip visit r = Some (set_MethodsRaw None r).
Proof.
  intros Hm Hkeyed Horder. rewrite Hm in Horder.
  destruct (tagged_visit visit) as [raw ->].
  { intros k p Hin. apply (Hkeyed k p). by apply (RangeOrder_lookup _ _ _ _ Horder). }
  unfold roundTrip, BeforeSave. rewrite appendEach_tagged. simpl.
  rewrite (rebuild_visit methods raw Horder).
  destruct r. simpl in *. by subst.
Qed.

(** X3: each hook builds its side from the other side alone, so running a
    hook twice in a row discards the data: a second [AfterFind] leaves an
    empty mapping, and a second [BeforeSave] leaves an empty storage form. *)
Theorem hooks_twice_discard (r : Request) :
  Methods (AfterFind (AfterFind r).1).1 = Some ∅
  ∧ (∀ visit visit' r' e,
       BeforeSave visit r = Some (r', e) →
       RangeOrder (Methods r') visit' →
       ∃ r'', BeforeSave visit' r' = Some (r'', None)
              ∧ MethodsRaw r'' = Some [] ∧ Methods r'' = None).
Proof.
  split; [done|]. intros visit visit' r' e. unfold BeforeSave at 1.
  destruct (appendEach [] visit) as [raw|]; [|done]. intros [= <- <-].
  simpl. intros ->%RangeOrder_nil. by eexists.
Qed.

Lemma hooks_twice_discard_witness :
  Methods (AfterFind (AfterFind login_samples.stored).1).1 = Some ∅
  ∧ ∃ r'', BeforeSave []
             (set_Methods None
                (set_MethodsRaw
                   (Some [login_samples.passwordMethod; login_samples.oidcMethod])
                   login_samples.keyed))
           = Some (r'', None)
           ∧ MethodsRaw r'' = Some [] ∧ Methods r'' = None.
Proof.
  destruct (hooks_twice_discard login_samples.keyed) as [_ Hsave].
  split; [exact (proj1 (hooks_twice_discard login_samples.stored))|].
  apply (Hsave login_samples.keyedVisit [] _ None eq_refl).
  unfold RangeOrder. simpl. constructor.
Defined.

(** X4: for a request whose mapping is allocated and keyed by [Method],
    [BeforeSave] in any order of iteration followed by [AfterFind] changes
    no field of the request other than [MethodsRaw], which it leaves nil: a
    request in memory form comes back as it was. *)
Theorem roundTrip_returns_the_request (r : Request) (methods : RequestMethods)
    visit :
  Methods r = Some methods →
  keyedByMethod methods →
  RangeOrder (Methods r) visit →
  roundTrip visit r = Some (set_MethodsRaw None r)
  ∧ (MethodsRaw r = None → roundTrip visit r = Some r).
Proof.
  intros Hm Hkeyed Horder.
  rewrite (roundTrip_memory_form r methods visit Hm Hkeyed Horder).
  split; [done|]. intros Hraw. destruct r. simpl in *. by subst.
Qed.

Lemma roundTrip_returns_the_request_witness :
  roundTrip login_samples.keyedVisit login_samples.keyed
  = Some login_samples.keyed.
Proof.
  assert (RangeOrder (Methods login_samples.keyed) login_samples.keyedVisit)
    as Horder.
  { unfold RangeOrder, login_samples.keyed, login_samples.keyedVisit. simpl.
    rewrite map_to_list_insert by done.
    by rewrite insert_empty, map_to_list_singleton. }
  apply (roundTrip_returns_the_request login_samples.keyed
           (<["password" := Some login_samples.passwordMethod]>
              (<["oidc" := Some login_samples.oidcMethod]> ∅))
           login_samples.keyedVisit eq_refl); [|exact Horder|reflexivity].
  intros k p Hlook.
  destruct (decide (k = "password")) as [->|Hp].
  - rewrite lookup_insert_eq in Hlook. injection Hlook as <-. by eexists.
  - rewrite lookup_insert_ne in Hlook by done.
    destruct (decide (k = "oidc")) as [->|Ho].
    + rewrite lookup_insert_eq in Hlook. injection Hlook as <-. by eexists.
    + rewrite lookup_insert_ne in Hlook by done. by rewrite lookup_empty in Hlook.
Defined.



(** X6: the mapping [AfterFind] builds has one entry per distinct [Method]
    of the storage form: a key is present exactly when some element carries
    it, the entries are never more numerous than the elements, and they are
    as numerous exactly when no two elements carry the same [Method]. *)
Theorem AfterFind_one_entry_per_Method (stored : Request) :
  ∃ rebuilt, Methods (AfterFind stored).1 = Some rebuilt
    ∧ (∀ k, is_Some (rebuilt !! k)
            ↔ ∃ m, m ∈ default [] (MethodsRaw stored) ∧ Method m = k)
    ∧ (size rebuilt ≤ length (default [] (MethodsRaw stored)))%nat
    ∧ (size rebuilt = length (default [] (MethodsRaw stored))
       ↔ NoDup (Method <$> default [] (MethodsRaw stored))).
Proof.
  exists (rebuild (default [] (MethodsRaw stored))). split; [done|].
  split; [intros k; apply rebuild_is_Some|apply rebuild_size].
Qed.

End LoginRequestHooks.

Section LoginRequestTime.
Import login.

Lemma Valid_run (r : Request) (k : time.Clock) :
  Valid r k
  = ((if ExpiresAt r <? time.readings k (time.taken k) then
        Some (RequestExpired
                (time.Sub (time.readings k (S (time.taken k))) (ExpiresAt r)))
      else if time.readings k (S (time.taken k)) <? IssuedAt r then
        Some (Herodot (herodot.WithReason herodot.ErrBadRequest
                         "The login request was issued in the future."))
      else None),
     time.mkClock (time.readings k) (S (S (time.taken k)))).
Proof.
  unfold Valid, st_bind, time.Since, time.Now, st_ret, time.Before, time.After.
  simpl. destruct (ExpiresAt r <? _); [done|]. simpl.
  by destruct (_ <? IssuedAt r).
Qed.

Lemma Sub_mono (t t' u : time.Time) : t ≤ t' → time.Sub t u ≤ time.Sub t' u.
Proof.
  intros Hle. unfold time.Sub, time.minDuration, time.maxDuration.
  repeat match goal with |- context [?a <? ?b] => destruct (Z.ltb_spec a b) end;
    lia.
Qed.

Lemma Sub_positive (t u : time.Time) : u < t → 0 < time.Sub t u.
Proof.
  intros Hlt. unfold time.Sub, time.minDuration, time.maxDuration.
  repeat match goal with |- context [?a <? ?b] => destruct (Z.ltb_spec a b) end;
    lia.
Qed.

(** X7: on a clock whose readings never go back, expiry is final and the
    clock-skew error cannot appear late. If [Valid] reports the request as
    expired, the elapsed time it carries is positive, and every later call
    reports it as expired too, with an elapsed time at least as large; if
    [Valid] does not report the request as issued in the future, no later
    call does. *)
Theorem Valid_under_steady_clock (r : Request) (k : time.Clock) (n : nat) :
  steady k →
  let later := time.mkClock (time.readings k) (time.taken k + n) in
  (∀ ago, (Valid r k).1 = Some (RequestExpired ago) →
     0 < ago
     ∧ ∃ ago', (Valid r later).1 = Some (RequestExpired ago') ∧ ago ≤ ago')
  ∧ ((∀ h, (Valid r k).1 ≠ Some (Herodot h)) →
     ∀ h, (Valid r later).1 ≠ Some (Herodot h)).
Proof.
  intros Hsteady later. unfold later. rewrite !Valid_run. simpl.
  pose proof (Hsteady (time.taken k) (S (time.taken k)) ltac:(lia)) as H12.
  pose proof (Hsteady (time.taken k) (time.taken k + n)%nat ltac:(lia)) as H11.
  pose proof (Hsteady (S (time.taken k)) (S (time.taken k + n)) ltac:(lia)) as H22.
  split.
  - intros ago.
    destruct (Z.ltb_spec (ExpiresAt r) (time.readings k (time.taken k)));
      [|by destruct (_ <? IssuedAt r)].
    intros [= <-]. split; [apply Sub_positive; lia|].
    destruct (Z.ltb_spec (ExpiresAt r) (time.readings k (time.taken k + n)));
      [|lia].
    eexists. split; [done|]. by apply Sub_mono.
  - intros Hnot h.
    destruct (Z.ltb_spec (ExpiresAt r) (time.readings k (time.taken k + n)));
      [done|].
    destruct (Z.ltb_spec (time.readings k (S (time.taken k + n))) (IssuedAt r));
      [|done].
    exfalso.
    destruct (Z.ltb_spec (ExpiresAt r) (time.readings k (time.taken k))); [lia|].
    destruct (Z.ltb_spec (time.readings k (S (time.taken k))) (IssuedAt r));
      [|lia].
    by eapply Hnot.
Qed.

Lemma ticking_steady t : steady (login_samples.ticking t).
Proof. intros i j Hle. simpl. lia. Qed.

Lemma Valid_under_steady_clock_witness :
  0 < 41
  ∧ ∃ ago', (Valid login_samples.inverted
               (time.mkClock (time.readings (login_samples.ticking 50)) (0 + 5))).1
            = Some (RequestExpired ago')
            ∧ 41 ≤ ago'.
Proof.
  exact (proj1 (Valid_under_steady_clock login_samples.inverted
                  (login_samples.ticking 50) 5 (ticking_steady 50))
           41 eq_refl).
Defined.

End LoginRequestTime.

Section NewLoginRequestProperties.
Import login.
Variable UUIDSource : Type.
Variable NewUUID : State UUIDSource UUID.
Variable URLString : url.URL → string.

#[local] Abbreviation New := (NewLoginRequest UUIDSource NewUUID URLString).

(** The URL whose text a new request records. *)
Lemma length_zero (s : string) : (String.length s =? 0)%nat = true ↔ s = "".
Proof. destruct s; simpl; split; done. Qed.

Lemma NewLoginRequest_run exp csrf (r : http.Request) u (e : Env UUIDSource) :
  http.URL r = Some u →
  New exp csrf r e
  = (Some (mkRequest (NewUUID (uuids e)).1
             (time.readings (clock e) (time.taken (clock e)) + exp)
             (time.readings (clock e) (S (time.taken (clock e))))
             (URLString
                (if (String.length (url.Scheme u) =? 0)%nat then
                   url.set_Scheme
                     (match http.TLS r with Some _ => "https" | None => "http" end)
                     (url.set_Host (http.Host r) u)
                 else url.set_Host (http.Host r) u))
             "" (Some ∅) None zeroTime zeroTime csrf false),
     mkEnv (time.mkClock (time.readings (clock e)) (S (S (time.taken (clock e)))))
       (NewUUID (uuids e)).2).
Proof.
  intros Hurl. unfold NewLoginRequest. rewrite Hurl.
  unfold st_bind, onUUIDs, onClock, time.Now, st_ret, time.Add, time.UTC. simpl.
  destruct (NewUUID (uuids e)) as [id src]. simpl.
  destruct (String.length (url.Scheme u) =? 0)%nat; [|done].
  by destruct (http.TLS r).
Qed.

(** X8: [NewLoginRequest] panics, before it draws an id or reads the clock,
    exactly when the request has no URL. Otherwise the request it returns
    records the text of the URL of the incoming request with the host
    replaced by the [Host] of that request and all other parts but the
    scheme as they were; the scheme is never empty: a scheme that is set is
    kept, a missing one becomes "https" when the request came over TLS and
    "http" when it did not. *)
Theorem NewLoginRequest_records_URL exp csrf (r : http.Request) (e : Env UUIDSource) :
  (http.URL r = None → New exp csrf r e = (None, e))
  ∧ (∀ u, http.URL r = Some u →
       ∃ req e' source,
         New exp csrf r e = (Some req, e')
         ∧ RequestURL req = URLString source
         ∧ url.Host source = http.Host r
         ∧ url.Scheme source ≠ ""
         ∧ (url.Scheme u ≠ "" → url.Scheme source = url.Scheme u)
         ∧ (url.Scheme u = "" →
            url.Scheme source
            = match http.TLS r with Some _ => "https" | None => "http" end)
         ∧ url.set_Scheme (url.Scheme u) (url.set_Host (url.Host u) source) = u
         ∧ CSRFToken req = csrf ∧ Forced req = false ∧ Active req = "").
Proof.
  split.
  - intros Hnil. unfold NewLoginRequest. by rewrite Hnil.
  - intros u Hurl. rewrite (NewLoginRequest_run exp csrf r u e Hurl).
    eexists _, _, _. split; [reflexivity|]. simpl. split; [reflexivity|].
    destruct (String.length (url.Scheme u) =? 0)%nat eqn:Hlen.
    + apply length_zero in Hlen. simpl.
      split_and!; try done.
      * by destruct (http.TLS r).
      * destruct u. simpl in *. by subst.
    + assert (url.Scheme u ≠ "") as Hne.
      { intros Heq%length_zero. congruence. }
      simpl. split_and!; try done. by destruct u.
Qed.

(** X9: a request made by [NewLoginRequest] and checked by [Valid] next, on
    a clock whose readings never go back, is never reported as issued in the
    future; it is valid exactly when the lifespan [exp] is at least the time
    that passed between the reading that set [ExpiresAt] and the reading of
    the expiry check, so with a negative lifespan it is expired at once. *)
Theorem NewLoginRequest_then_Valid exp csrf (r : http.Request) u (e : Env UUIDSource) :
  http.URL r = Some u →
  steady (clock e) →
  ∃ req e',
    New exp csrf r e = (Some req, e')
    ∧ (∀ h, (Valid req (clock e')).1 ≠ Some (Herodot h))
    ∧ ((Valid req (clock e')).1 = None
       ↔ time.readings (clock e) (S (S (time.taken (clock e))))
         - time.readings (clock e) (time.taken (clock e)) ≤ exp)
    ∧ (exp < 0 → ∃ ago, (Valid req (clock e')).1 = Some (RequestExpired ago)).
Proof.
  intros Hurl Hsteady. rewrite (NewLoginRequest_run exp csrf r u e Hurl).
  eexists _, _. split; [reflexivity|]. rewrite Valid_run. simpl.
  set (t := time.taken (clock e)).
  pose proof (Hsteady t (S (S t)) ltac:(lia)) as H02.
  pose proof (Hsteady (S t) (S (S (S t))) ltac:(lia)) as H13.
  destruct (Z.ltb_spec (time.readings (clock e) t + exp)
              (time.readings (clock e) (S (S t)))).
  - split_and!; [done| |by eexists]. split; [done|lia].
  - destruct (Z.ltb_spec (time.readings (clock e) (S (S (S t))))
                (time.readings (clock e) (S t))); [lia|].
    split_and!; [done| |lia]. split; [lia|done].
Qed.

(** X10: a request made by [NewLoginRequest] is in memory form, with an
    empty mapping that is not nil; [BeforeSave] on it leaves an empty storage
    form that is not nil; and [BeforeSave] followed by [AfterFind] returns
    the request as it was made, field by field. *)
Theorem NewLoginRequest_round_trip exp csrf (r : http.Request) u (e : Env UUIDSource) visit :
  http.URL r = Some u →
  ∃ req e',
    New exp csrf r e = (Some req, e')
    ∧ Methods req = Some ∅ ∧ MethodsRaw req = None
    ∧ (RangeOrder (Methods req) visit →
       BeforeSave visit req
       = Some (set_Methods None (set_MethodsRaw (Some []) req), None)
       ∧ roundTrip visit req = Some req).
Proof.
  intros Hurl. rewrite (NewLoginRequest_run exp csrf r u e Hurl).
  eexists _, _. split; [reflexivity|]. simpl. split_and!; [done..|].
  intros Horder. unfold RangeOrder in Horder. simpl in Horder.
  rewrite map_to_list_empty in Horder. apply Permutation_nil_r in Horder as ->.
  done.
Qed.

End NewLoginRequestProperties.

Section NewLoginRequestSamples.
Import login.

Lemma NewLoginRequest_records_URL_witness :
  ∃ req e' source,
    NewLoginRequest (list UUID) login_samples.dealUUID login_samples.printURL
      3600 "csrf" login_samples.arriving
      (mkEnv (login_samples.ticking 1000) [7%N])
    = (Some req, e')
    ∧ RequestURL req = login_samples.printURL source
    ∧ url.Host source = "kratos.example"
    ∧ url.Scheme source = "https".
Proof.
  destruct (proj2 (NewLoginRequest_records_URL (list UUID) login_samples.dealUUID
                     login_samples.printURL 3600 "csrf" login_samples.arriving
                     (mkEnv (login_samples.ticking 1000) [7%N]))
              _ eq_refl)
    as (req & e' & source & Hrun & Hurl & Hhost & _ & _ & Hscheme & _).
  exists req, e', source. split_and!; [done|done|done|].
  by apply Hscheme.
Defined.

Lemma NewLoginRequest_then_Valid_witness :
  ∃ req e',
    NewLoginRequest (list UUID) login_samples.dealUUID login_samples.printURL
      3600 "csrf" login_samples.arriving
      (mkEnv (login_samples.ticking 1000) [7%N])
    = (Some req, e')
    ∧ (Valid req (clock e')).1 = None.
Proof.
  destruct (NewLoginRequest_then_Valid (list UUID) login_samples.dealUUID
              login_samples.printURL 3600 "csrf" login_samples.arriving _
              (mkEnv (login_samples.ticking 1000) [7%N]) eq_refl
              (ticking_steady 1000))
    as (req & e' & Hrun & _ & Hvalid & _).
  exists req, e'. split; [done|]. apply Hvalid. simpl. lia.
Defined.

Lemma NewLoginRequest_round_trip_witness :
  ∃ req e',
    NewLoginRequest (list UUID) login_samples.dealUUID login_samples.printURL
      3600 "csrf" login_samples.arriving
      (mkEnv (login_samples.ticking 1000) [7%N])
    = (Some req, e')
    ∧ roundTrip [] req = Some req.
Proof.
  destruct (NewLoginRequest_round_trip (list UUID) login_samples.dealUUID
              login_samples.printURL 3600 "csrf" login_samples.arriving _
              (mkEnv (login_samples.ticking 1000) [7%N]) [] eq_refl)
    as (req & e' & Hrun & Hm & _ & Hhooks).
  exists req, e'. split; [done|]. apply Hhooks.
  unfold RangeOrder. rewrite Hm. simpl. by rewrite map_to_list_empty.
Defined.

End NewLoginRequestSamples.

(** * Further properties of the identity manager *)

Section ManagerOptions.
Import identity.

Lemma flags_agree (b b' : bool) (Q : Prop) :
  (b = true ↔ Q) → (b' = true ↔ Q) → b = b'.
Proof. destruct b, b'; intuition congruence. Qed.

(** X11: for options taken from the two the package exports, a flag of the
    options record is set exactly when its option was passed; so neither the
    order of the options nor passing one several times matters, and no
    option clears what another has set. *)
Theorem newManagerOptions_exported (opts opts' : list ManagerOption) :
  Forall exported opts →
  (AllowWriteProtectedTraits (newManagerOptions opts) = true
   ↔ ManagerAllowWriteProtectedTraits ∈ opts)
  ∧ (ExposeValidationErrors (newManagerOptions opts) = true
     ↔ ManagerExposeValidationErrors ∈ opts)
  ∧ (opts ≡ₚ opts' → newManagerOptions opts' = newManagerOptions opts)
  ∧ newManagerOptions (opts ++ opts) = newManagerOptions opts.
Proof.
  intros Hexp.
  assert (∀ l, Forall exported l →
            (AllowWriteProtectedTraits (newManagerOptions l) = true
             ↔ ManagerAllowWriteProtectedTraits ∈ l)
            ∧ (ExposeValidationErrors (newManagerOptions l) = true
               ↔ ManagerExposeValidationErrors ∈ l)) as Hflags.
  { intros l Hl. destruct (options_fold l (mkManagerOptions false false) Hl)
      as [Ha He]. simpl in *. unfold newManagerOptions.
    split; [rewrite Ha|rewrite He]; intuition congruence. }
  assert (∀ l l', Forall exported l → Forall exported l' →
            (∀ f, f ∈ l' ↔ f ∈ l) →
            newManagerOptions l' = newManagerOptions l) as Hsame.
  { intros l l' Hl Hl' Hmem.
    destruct (Hflags l Hl) as [Ha He], (Hflags l' Hl') as [Ha' He'].
    rewrite <- Hmem in Ha, He.
    pose proof (flags_agree _ _ _ Ha' Ha). pose proof (flags_agree _ _ _ He' He).
    destruct (newManagerOptions l'), (newManagerOptions l). simpl in *.
    congruence. }
  destruct (Hflags opts Hexp) as [Ha He]. split_and!; [done|done| |].
  - intros Hperm. apply Hsame; [done|by rewrite <- Hperm|].
    intros f. by rewrite Hperm.
  - apply Hsame; [done|by apply Forall_app|].
    intros f. rewrite elem_of_app. tauto.
Qed.

Lemma newManagerOptions_exported_witness :
  newManagerOptions [ManagerAllowWriteProtectedTraits; ManagerExposeValidationErrors]
  = newManagerOptions [ManagerExposeValidationErrors;
                       ManagerAllowWriteProtectedTraits].
Proof.
  assert (Forall exported [ManagerExposeValidationErrors;
                           ManagerAllowWriteProtectedTraits]) as Hexp.
  { apply Forall_cons. split; [by left|].
    apply Forall_cons. split; [by right|]. apply Forall_nil_2. }
  destruct (newManagerOptions_exported
              [ManagerExposeValidationErrors; ManagerAllowWriteProtectedTraits]
              [ManagerAllowWriteProtectedTraits; ManagerExposeValidationErrors]
              Hexp) as (_ & _ & Hperm & _).
  apply Hperm. apply perm_swap.
Defined.

End ManagerOptions.

Section ManagerPaths.
Import identity.
Context `{D : Declarations}.
Variable m : Manager.

#[local] Abbreviation V := (IdentityValidator (r m)).
#[local] Abbreviation P := (IdentityPool (r m)).

(** X12: when the confidential read fails, [UpdateTraits] returns the error
    of the store as it is, with no working identity; the validator is not
    called, nothing is written, and the store is as the read left it. *)
Theorem UpdateTraits_read_failure ctx id traits opts (w : World m) err p :
  GetIdentityConfidential P ctx id (pool w) = (inr err, p) →
  let out := UpdateTraits m ctx id traits opts w in
  out.1 = (None, Some (OfPool err))
  ∧ calls out.2 = calls w ++ [CallGetIdentityConfidential ctx id]
  ∧ pool out.2 = p.
Proof.
  intros Hget out. unfold out.
  by rewrite (UpdateTraits_read_failed m ctx id traits opts w err p Hget).
Qed.

(** X13: with [AllowWriteProtectedTraits] set, [UpdateTraits] is the
    confidential read followed by [Update] of the identity read with its
    traits replaced: the guard is not applied, whatever the validator did to
    the credentials and addresses. *)
Theorem UpdateTraits_privileged_is_Update ctx id traits opts (w : World m)
    original p :
  GetIdentityConfidential P ctx id (pool w) = (inl original, p) →
  AllowWriteProtectedTraits (newManagerOptions opts) = true →
  let afterRead :=
    mkWorld (m:=m) p (clock w) (entropy w)
      (calls w ++ [CallGetIdentityConfidential ctx id]) in
  let updated := Update m ctx (set_Traits traits original) opts afterRead in
  UpdateTraits m ctx id traits opts w
  = ((Some updated.1.1, updated.1.2), updated.2).
Proof.
  intros Hget Hallow afterRead updated. unfold updated, afterRead.
  rewrite Update_run.
  destruct (Validate V (set_Traits traits original)) as [changed [verr|]] eqn:Hval.
  - rewrite (UpdateTraits_rejected m _ _ _ _ _ _ _ _ _ Hget Hval).
    cbn [fst snd].
    destruct (reported (newManagerOptions opts) (Some verr)) as [e|] eqn:Hrep.
    + cbn [fst snd calls pool clock entropy]. by rewrite <- app_assoc.
    + unfold reported in Hrep. by destruct (_ && _).
  - rewrite (UpdateTraits_validated m _ _ _ _ _ _ _ _ Hget Hval), Hallow.
    cbn [negb andb fst snd reported calls pool clock entropy].
    by rewrite <- app_assoc.
Qed.

(** X14: whatever its arguments, the calls [UpdateTraits] makes are the
    confidential read, then at most one validation (of the identity read,
    with the new traits), then at most one [UpdateIdentity], of an identity
    the validator accepted. Without [AllowWriteProtectedTraits], an identity
    that reaches [UpdateIdentity] equals the one read under the guard's
    equality: an unprivileged trait update never writes changed credentials
    or addresses. *)
Theorem UpdateTraits_writes_only_guarded ctx id traits opts (w : World m) :
  let out := UpdateTraits m ctx id traits opts w in
  let made := drop (length (calls w)) (calls out.2) in
  made = [CallGetIdentityConfidential ctx id]
  ∨ ∃ original p,
      GetIdentityConfidential P ctx id (pool w) = (inl original, p)
      ∧ (made = [CallGetIdentityConfidential ctx id;
                 CallValidate (set_Traits traits original)]
         ∨ ∃ validated,
             Validate V (set_Traits traits original) = (validated, None)
             ∧ made = [CallGetIdentityConfidential ctx id;
                       CallValidate (set_Traits traits original);
                       CallUpdateIdentity ctx validated]
             ∧ (AllowWriteProtectedTraits (newManagerOptions opts) = false →
                protectedUnchanged original validated = true)).
Proof.
  intros out made. unfold made, out.
  destruct (GetIdentityConfidential P ctx id (pool w)) as [[original|err] p]
    eqn:Hget.
  - right. exists original, p. split; [done|].
    destruct (Validate V (set_Traits traits original)) as [validated [verr|]]
      eqn:Hval.
    + left. rewrite (UpdateTraits_rejected m _ _ _ _ _ _ _ _ _ Hget Hval).
      simpl. by rewrite drop_app_length.
    + rewrite (UpdateTraits_validated m _ _ _ _ _ _ _ _ Hget Hval).
      destruct (AllowWriteProtectedTraits (newManagerOptions opts));
        destruct (protectedUnchanged original validated) eqn:Hsame; simpl;
        rewrite drop_app_length; try (by left);
        right; exists validated; split_and!; done.
  - left. rewrite (UpdateTraits_read_failed m _ _ _ _ _ _ _ Hget). simpl.
    by rewrite drop_app_length.
Qed.

(** X15: a failure of the validator that is not a schema violation is
    returned as it is by [Create], [Update] and [UpdateTraits], whether or
    not validation errors are exposed; the store is not written, and the
    identity stays as the validator left it ([UpdateTraits] does not restore
    the snapshot on this path). *)
Theorem validator_failure_is_returned ctx opts (w : World m) message :
  (∀ i changed,
     Validate V i = (changed, Some (ValidatorFailure message)) →
     Create m ctx i opts w
     = ((changed, Some (OfValidator (ValidatorFailure message))),
        mkWorld (pool w) (clock w) (entropy w) (calls w ++ [CallValidate i]))
     ∧ Update m ctx i opts w
       = ((changed, Some (OfValidator (ValidatorFailure message))),
          mkWorld (pool w) (clock w) (entropy w) (calls w ++ [CallValidate i])))
  ∧ (∀ id traits original p changed,
       GetIdentityConfidential P ctx id (pool w) = (inl original, p) →
       Validate V (set_Traits traits original)
       = (changed, Some (ValidatorFailure message)) →
       UpdateTraits m ctx id traits opts w
       = ((Some changed, Some (OfValidator (ValidatorFailure message))),
          mkWorld p (clock w) (entropy w)
            (calls w ++ [CallGetIdentityConfidential ctx id;
                         CallValidate (set_Traits traits original)]))).
Proof.
  split.
  - intros i changed Hval. by rewrite Create_run, Update_run, Hval.
  - intros id traits original p changed Hget Hval.
    by rewrite (UpdateTraits_rejected m _ _ _ _ _ _ _ _ _ Hget Hval).
Qed.

(** X16: when the validator accepts the identity, [Create] and [Update] call
    the store once, with the identity as the validator left it, and return
    what the store returns; the caller's identity is left as the validator
    left it whether the store fails or not. [Update] applies no guard: it
    writes the identity even when the validator changed its credentials. *)
Theorem Create_Update_write_validated ctx i opts (w : World m) validated :
  Validate V i = (validated, None) →
  let created := CreateIdentity P ctx validated (pool w) in
  let updated := UpdateIdentity P ctx validated (pool w) in
  Create m ctx i opts w
  = ((validated, OfPool <$> created.1),
     mkWorld created.2 (clock w) (entropy w)
       (calls w ++ [CallValidate i; CallCreateIdentity ctx validated]))
  ∧ Update m ctx i opts w
    = ((validated, OfPool <$> updated.1),
       mkWorld updated.2 (clock w) (entropy w)
         (calls w ++ [CallValidate i; CallUpdateIdentity ctx validated])).
Proof.
  intros Hval created updated. unfold created, updated.
  by rewrite Create_run, Update_run, Hval.
Qed.

(** X17: when the code generator fails, [RefreshVerifyAddress] returns its
    error and leaves the address as it was; the clock is not read and the
    store is not called. *)
Theorem RefreshVerifyAddress_no_code ctx address (w : World m) message e' :
  NewVerifyCode (entropy w) = (inr message, e') →
  RefreshVerifyAddress m ctx address w
  = ((address, Some (OfNewVerifyCode message)),
     mkWorld (pool w) (clock w) e' (calls w ++ [CallNewVerifyCode])).
Proof.
  intros Hgen. by rewrite RefreshVerifyAddress_run, Hgen.
Qed.

(** X18: when the store's [UpdateVerifiableAddress] fails,
    [RefreshVerifyAddress] returns that error, and the address it was handed
    carries the new code and the new expiry all the same: the change in
    memory is not undone. *)
Theorem RefreshVerifyAddress_store_failure ctx address (w : World m) code e' :
  NewVerifyCode (entropy w) = (inl code, e') →
  let refreshed :=
    mkVerifiableAddress (Value address) (Via address) (Verified address) code
      (time.readings (clock w) (time.taken (clock w))
       + SelfServiceVerificationLinkLifespan (c m)) in
  ∀ err p,
    UpdateVerifiableAddress P ctx refreshed (pool w) = (Some err, p) →
    (RefreshVerifyAddress m ctx address w).1 = (refreshed, Some (OfPool err)).
Proof.
  intros Hgen refreshed err p Hupd. rewrite RefreshVerifyAddress_run, Hgen.
  cbn [fst snd]. fold refreshed. by rewrite Hupd.
Qed.

(** X19: two calls of [RefreshVerifyAddress] in a row, the second on the
    address the first left. The second code replaces the first; the two
    expiries differ by what the clock advanced between the two readings, so
    the second is not earlier when the clock did not go back; [Value], [Via]
    and [Verified] are still those of the original address; and the address
    is the one a single call on the original address would have left at that
    point: what the first call wrote does not show. *)
Theorem RefreshVerifyAddress_twice ctx ctx' address (w : World m) c1 e1 c2 e2 :
  NewVerifyCode (entropy w) = (inl c1, e1) →
  NewVerifyCode e1 = (inl c2, e2) →
  let first := RefreshVerifyAddress m ctx address w in
  let second := RefreshVerifyAddress m ctx' first.1.1 first.2 in
  Code first.1.1 = c1 ∧ Code second.1.1 = c2
  ∧ ExpiresAt second.1.1 - ExpiresAt first.1.1
    = time.readings (clock w) (S (time.taken (clock w)))
      - time.readings (clock w) (time.taken (clock w))
  ∧ Value second.1.1 = Value address
  ∧ Via second.1.1 = Via address
  ∧ Verified second.1.1 = Verified address
  ∧ second.1.1 = (RefreshVerifyAddress m ctx' address first.2).1.1
  ∧ calls second.2
    = calls w ++ [CallNewVerifyCode; CallUpdateVerifiableAddress ctx first.1.1;
                  CallNewVerifyCode; CallUpdateVerifiableAddress ctx' second.1.1].
Proof.
  intros Hgen1 Hgen2 first second. unfold second, first.
  rewrite (RefreshVerifyAddress_run m ctx address w), Hgen1.
  cbn [fst snd]. rewrite !RefreshVerifyAddress_run.
  cbn [fst snd entropy clock calls pool]. rewrite Hgen2.
  cbn [fst snd entropy clock calls pool Code ExpiresAt Value Via Verified
       time.Now time.readings time.taken].
  split_and!; try done; [lia|].
  by rewrite <- app_assoc.
Qed.

End ManagerPaths.

Section ManagerPathsSamples.
Import identity identity_samples.
#[local] Existing Instance declarations.

Lemma UpdateTraits_read_failure_witness :
  let out := UpdateTraits checkingManager context.Background 9%N
               "alice@kratos.example" [] (start checkingManager storeWithAlice) in
  out.1 = (None, Some (OfPool ErrNotFound))
  ∧ calls out.2 = [CallGetIdentityConfidential context.Background 9%N]
  ∧ pool out.2 = storeWithAlice.
Proof.
  exact (UpdateTraits_read_failure (D:=declarations) checkingManager
           context.Background 9%N "alice@kratos.example" []
           (start checkingManager storeWithAlice) ErrNotFound storeWithAlice
           eq_refl).
Defined.

Lemma UpdateTraits_privileged_is_Update_witness :
  (UpdateTraits derivingManager context.Background 1%N "bob@example.org"
     [ManagerAllowWriteProtectedTraits] (start derivingManager storeWithAlice)).1
  = (Some aliceDerived, None).
Proof.
  rewrite (UpdateTraits_privileged_is_Update (D:=declarations) derivingManager
             context.Background 1%N "bob@example.org"
             [ManagerAllowWriteProtectedTraits]
             (start derivingManager storeWithAlice) alice storeWithAlice
             eq_refl eq_refl).
  reflexivity.
Defined.

Lemma UpdateTraits_writes_only_guarded_witness :
  let out := UpdateTraits checkingManager context.Background 1%N
               "alice@kratos.example" [] (start checkingManager storeWithAlice) in
  let made := drop (length (calls (start checkingManager storeWithAlice)))
                (calls out.2) in
  made = [CallGetIdentityConfidential context.Background 1%N]
  ∨ ∃ original p,
      GetIdentityConfidential memoryPool context.Background 1%N storeWithAlice
      = (inl original, p)
      ∧ (made = [CallGetIdentityConfidential context.Background 1%N;
                 CallValidate (set_Traits "alice@kratos.example" original)]
         ∨ ∃ validated,
             Validate checking (set_Traits "alice@kratos.example" original)
             = (validated, None)
             ∧ made = [CallGetIdentityConfidential context.Background 1%N;
                       CallValidate (set_Traits "alice@kratos.example" original);
                       CallUpdateIdentity context.Background validated]
             ∧ (AllowWriteProtectedTraits (newManagerOptions []) = false →
                protectedUnchanged original validated = true)).
Proof.
  exact (UpdateTraits_writes_only_guarded (D:=declarations) checkingManager
           context.Background 1%N "alice@kratos.example" []
           (start checkingManager storeWithAlice)).
Defined.

Lemma validator_failure_is_returned_witness :
  (Create unreachableManager context.Background alice
     [ManagerExposeValidationErrors] (start unreachableManager storeWithAlice)).1
  = (alice, Some (OfValidator (ValidatorFailure "schema: connection refused"))).
Proof.
  destruct (validator_failure_is_returned (D:=declarations) unreachableManager
              context.Background [ManagerExposeValidationErrors]
              (start unreachableManager storeWithAlice)
              "schema: connection refused") as [Hboth _].
  destruct (Hboth alice alice eq_refl) as [Hcreate _]. by rewrite Hcreate.
Defined.

Lemma Create_Update_write_validated_witness :
  (Create checkingManager context.Background alice []
     (start checkingManager storeWithAlice)).1
  = (alice, Some (OfPool (ErrPool "identity exists already")))
  ∧ (Update checkingManager context.Background alice []
       (start checkingManager storeWithAlice)).1
    = (alice, None).
Proof.
  destruct (Create_Update_write_validated (D:=declarations) checkingManager
              context.Background alice [] (start checkingManager storeWithAlice)
              alice eq_refl) as [Hcreate Hupdate].
  by rewrite Hcreate, Hupdate.
Defined.

Lemma RefreshVerifyAddress_no_code_witness :
  RefreshVerifyAddress checkingManager context.Background mailbox
    (startWith checkingManager storeWithAlice (time.frozen 1000) [])
  = ((mailbox, Some (OfNewVerifyCode "entropy source exhausted")),
     mkWorld (m:=checkingManager) storeWithAlice (time.frozen 1000) []
       [CallNewVerifyCode]).
Proof.
  exact (RefreshVerifyAddress_no_code (D:=declarations) checkingManager
           context.Background mailbox
           (startWith checkingManager storeWithAlice (time.frozen 1000) [])
           "entropy source exhausted" [] eq_refl).
Defined.

Lemma RefreshVerifyAddress_store_failure_witness :
  (RefreshVerifyAddress checkingManager canceled mailbox
     (start checkingManager storeWithAlice)).1
  = (mkVerifiableAddress "alice@example.org" "email" false "code-1" (1000 + hour),
     Some (OfPool (ErrContext context.Canceled))).
Proof.
  exact (RefreshVerifyAddress_store_failure (D:=declarations) checkingManager
           canceled mailbox (start checkingManager storeWithAlice)
           "code-1" ["code-2"] eq_refl (ErrContext context.Canceled)
           storeWithAlice eq_refl).
Defined.

Lemma RefreshVerifyAddress_twice_witness :
  let w := startWith checkingManager storeWithAlice (ticking 1000)
             ["code-1"; "code-2"] in
  let first := RefreshVerifyAddress checkingManager context.Background mailbox w in
  let second := RefreshVerifyAddress checkingManager context.Background
                  first.1.1 first.2 in
  Code first.1.1 = "code-1" ∧ Code second.1.1 = "code-2"
  ∧ ExpiresAt second.1.1 - ExpiresAt first.1.1 = 1.
Proof.
  destruct (RefreshVerifyAddress_twice (D:=declarations) checkingManager
              context.Background context.Background mailbox
              (startWith checkingManager storeWithAlice (ticking 1000)
                 ["code-1"; "code-2"])
              "code-1" ["code-2"] "code-2" [] eq_refl eq_refl)
    as (Hfirst & Hsecond & Hgap & _).
  split_and!; [exact Hfirst|exact Hsecond|exact Hgap].
Defined.

End ManagerPathsSamples.
